(** * face-api.js: input coercion ([toNetInput]) and the full-face pipeline
      ([allFacesFactory])

    A shallow embedding of [src/toNetInput.ts] and [src/allFacesFactory.ts].
    JavaScript exceptions and rejected promises are values of an error
    monad; objects with identity ([NetInput] instances, tensors of the
    tensor engine) live in an explicit store that the functions thread. *)

From Stdlib Require Import QArith Sorted.
From stdpp Require Import base option list strings pretty gmap.
Close Scope Q_scope.
Set Warnings "-clear-no-such-hyp".
Local Open Scope string_scope.
Local Open Scope list_scope.

(** ** Exceptions over a threaded store *)

(** [new Error(message)]: a thrown value is its message. *)
Definition Error := string.

(** A promise that rejects does so at some time: a rejection is the
    time at which it arrives and the error it carries.  Times order the
    rejections of promises that run side by side; what they are is up to
    the run. *)
Definition Rejection : Type := nat * Error.

(** The rejection that arrives first.  (Two rejections of a run never
    share a time; were they to, the earlier promise is taken.) *)
Fixpoint earliest (rs : list Rejection) : option Rejection :=
  match rs with
  | [] => None
  | r :: rest =>
      match earliest rest with
      | Some r' => if Nat.ltb r'.1 r.1 then Some r' else Some r
      | None => Some r
      end
  end.

(** A computation over a store [S] that returns or throws; the store
    survives a throw (nothing is rolled back). *)
Definition M (S A : Type) : Type := S → S * (Error + A).

Global Instance M_ret {S} : MRet (M S) := λ A (a : A) s, (s, inr a).
Global Instance M_bind {S} : MBind (M S) := λ A B (k : A → M S B) (c : M S A) s,
  match c s with
  | (s', inl e) => (s', inl e)
  | (s', inr a) => k a s'
  end.

Definition throw {S A} (e : Error) : M S A := λ s, (s, inl e).

(** A pure step that may throw, run inside a stateful computation. *)
Definition liftE {S A} (r : Error + A) : M S A := λ s, (s, r).

(** [Array.prototype.map] with a callback [(x, i) => ...] that may
    throw: elements are visited in index order and the first throw
    aborts the whole map. *)
Fixpoint Array_map_from {A B} (f : A → nat → Error + B) (i : nat) (l : list A)
  : Error + list B :=
  match l with
  | [] => inr []
  | x :: l' =>
      match f x i with
      | inl e => inl e
      | inr y =>
          match Array_map_from f (S i) l' with
          | inl e => inl e
          | inr ys => inr (y :: ys)
          end
      end
  end.

Definition Array_map {A B} (f : A → nat → Error + B) (l : list A) : Error + list B :=
  Array_map_from f 0 l.

(** [Array.prototype.forEach] with a callback that may throw. *)
Fixpoint Array_forEach_from {A} (f : A → nat → Error + unit) (i : nat) (l : list A)
  : Error + unit :=
  match l with
  | [] => inr tt
  | x :: l' =>
      match f x i with
      | inl e => inl e
      | inr _ => Array_forEach_from f (S i) l'
      end
  end.

Definition Array_forEach {A} (f : A → nat → Error + unit) (l : list A) : Error + unit :=
  Array_forEach_from f 0 l.

(** ** toNetInput.ts *)

Module InputCoercion.

(** [tf.Tensor]: a handle on the numeric data and the shape. *)
Record Tensor := mkTensor { dataId : nat; shape : list nat }.

(** [t.reshape(newShape)]: same data under another shape. *)
Definition reshape (t : Tensor) (newShape : list nat) : Tensor :=
  {| dataId := dataId t; shape := newShape |}.

(** [shape.slice(1)] *)
Definition slice1 (s : list nat) : list nat := drop 1 s.

(** The media elements the network accepts. *)
Inductive Media :=
| HTMLImageElement (node : nat)
| HTMLVideoElement (node : nat)
| HTMLCanvasElement (node : nat).

(** One argument of the input union, as a tagged variant of what the
    code inspects at run time: an element id, a media element, a tensor
    of any rank, or anything else ([null] from a failed id lookup, a
    non-media DOM node, a number, ...). *)
Inductive TNetInputArg :=
| AString (id : string)
| AMedia (m : Media)
| ATensor (t : Tensor)
| AOther.

(** What a [NetInput] was constructed from: [new NetInput(tensor4D)] or
    [new NetInput(array, isBatchInput)]. *)
Inductive NetInputSource :=
| OfTensor4D (t : Tensor)
| OfArray (items : list TNetInputArg).

(** Modelled from the spec: class [NetInput] is not part of the sources
    at hand.  "Output NetInput wraps either an array of per-item tensors
    (flag: from array = true) or a single tensor (flag = false), plus
    the managed/caller-owned flag." *)
Record NetInput := mkNetInput {
  wrapped : NetInputSource;
  fromArray : bool;
  managed : bool
}.

(** [NetInput] instances are objects: a reference is an index in the
    store of instances. *)
Definition Ref := nat.

(** [TNetInput]: a [NetInput] instance, an array of arguments, or one
    argument (a 4D tensor is [InArg (ATensor t)] with four dimensions). *)
Inductive TNetInput :=
| InNetInput (r : Ref)
| InArray (elems : list TNetInputArg)
| InArg (a : TNetInputArg).

(** The store [toNetInput] acts on: the [NetInput] instances created so
    far and the media elements whose loading has been awaited. *)
Record World := mkWorld {
  heap : list NetInput;
  awaited : list Media
}.

(** Modelled from the spec: the constructor of [NetInput] is not part of
    the sources at hand.  A new instance records what it wraps and the
    from-array flag ([false] when the argument is omitted) and starts
    caller-owned. *)
Definition new_NetInput (src : NetInputSource) (isBatchInput : option bool) : M World Ref :=
  λ w, (mkWorld (heap w ++ [mkNetInput src (default false isBatchInput) false]) (awaited w),
        inr (length (heap w))).

(** Modelled from the spec: [netInput.managed()] is not part of the
    sources at hand.  It sets the managed flag of the instance in place
    and returns the same instance. *)
Definition NetInput_managed (r : Ref) : M World Ref :=
  λ w, (mkWorld (alter (λ n, mkNetInput (wrapped n) (fromArray n) true) r (heap w)) (awaited w),
        inr r).

(** Modelled from the spec: [isTensor3D] and [isTensor4D] are not part
    of the sources at hand; "3-dimensional numeric tensor", "pre-batched
    numeric tensor (4 dimensions)". *)
Definition isTensor (dim : nat) (a : TNetInputArg) : bool :=
  match a with
  | ATensor t => bool_decide (length (shape t) = dim)
  | _ => false
  end.
Definition isTensor3D := isTensor 3.
Definition isTensor4D := isTensor 4.

(** Modelled from the spec: [isMediaElement] is not part of the sources
    at hand; a "media-like object". *)
Definition isMediaElement (a : TNetInputArg) : bool :=
  match a with AMedia _ => true | _ => false end.

(** [typeof x === 'string'] *)
Definition typeof_string (a : option TNetInputArg) : bool :=
  match a with Some (AString _) => true | _ => false end.

(** [inputs instanceof NetInput] *)
Definition instanceof_NetInput (inputs : TNetInput) : option Ref :=
  match inputs with InNetInput r => Some r | _ => None end.

(** [Array.isArray(inputs)] *)
Definition Array_isArray (inputs : TNetInput) : bool :=
  match inputs with InArray _ => true | _ => false end.

(** [isTensor4D(inputs)] on the whole input, with the tensor it is. *)
Definition input_Tensor4D (inputs : TNetInput) : option Tensor :=
  match inputs with
  | InArg (ATensor t) => if isTensor4D (ATensor t) then Some t else None
  | _ => None
  end.

(** [`${x}`] of a number and of an argument. *)
Definition num (n : nat) : string := pretty n.
Definition arg_string (a : option TNetInputArg) : string :=
  match a with Some (AString s) => s | _ => "" end.

Section ToNetInput.

(** The two helpers of [./utils], which reach the DOM: [resolveInput]
    turns an argument into what it stands for (an element id into the
    element, when there is one), and [awaitMediaLoaded] is [None] when
    the element's load promise resolves and the rejection otherwise. *)
Variable resolveInput : TNetInputArg → TNetInputArg.
Variable awaitMediaLoaded : Media → option Rejection.

(** [Array.isArray(inputs) ? inputs : [inputs]] *)
Definition inputArgArray (inputs : TNetInput) : list TNetInputArg :=
  match inputs with
  | InArray elems => elems
  | InArg a => [a]
  | InNetInput _ => []
  end.

Definition getIdxHint (inputs : TNetInput) (idx : nat) : string :=
  if Array_isArray inputs then " at input index " +:+ num idx +:+ ":" else "".

(** The callback of the second [.map]: a 4D tensor in the input array
    must have batch size 1 and becomes a 3D tensor. *)
Definition reduceBatch (inputs : TNetInput) (input : TNetInputArg) (i : nat)
  : Error + TNetInputArg :=
  match input with
  | ATensor t =>
      if isTensor4D input then
        let batchSize := default 0 (shape t !! 0) in
        if bool_decide (batchSize ≠ 1) then
          inl ("toNetInput -" +:+ getIdxHint inputs i +:+ " tf.Tensor4D with batchSize "
               +:+ num batchSize +:+ " passed, but not supported in input array")
        else inr (ATensor (reshape t (slice1 (shape t))))
      else inr input
  | _ => inr input
  end.

(** The callback of the [forEach]: every element is a media element or
    a 3D tensor by now. *)
Definition checkElement (inputs : TNetInput) (input : TNetInputArg) (i : nat)
  : Error + unit :=
  if negb (isMediaElement input) && negb (isTensor3D input) then
    if typeof_string (inputArgArray inputs !! i) then
      inl ("toNetInput -" +:+ getIdxHint inputs i
           +:+ " string passed, but could not resolve HTMLElement for element id "
           +:+ arg_string (inputArgArray inputs !! i))
    else
      inl ("toNetInput -" +:+ getIdxHint inputs i
           +:+ " expected media to be of type HTMLImageElement | HTMLVideoElement | HTMLCanvasElement | tf.Tensor3D, or to be an element id")
  else inr tt.

(** The media elements of the resolved array, in order: those for which
    [isMediaElement(input) && awaitMediaLoaded(input)] starts a wait. *)
Definition mediaOf (inputArray : list TNetInputArg) : list Media :=
  omap (λ a, match a with AMedia m => Some m | _ => None end) inputArray.

(** [await Promise.all(inputArray.map(...))]: every wait is started, in
    index order; the call goes on when all have resolved and is rejected
    when one is, with the rejection that arrives first. *)
Definition awaitAll (inputArray : list TNetInputArg) : M World unit :=
  λ w, (mkWorld (heap w) (awaited w ++ mediaOf inputArray),
        match earliest (omap awaitMediaLoaded (mediaOf inputArray)) with
        | Some r => inl r.2
        | None => inr tt
        end).

Definition afterCreate (manageCreatedInput : bool) (netInput : Ref) : M World Ref :=
  if manageCreatedInput then NetInput_managed netInput else mret netInput.

Definition toNetInput (inputs : TNetInput) (manageCreatedInput : bool) : M World Ref :=
  match instanceof_NetInput inputs with
  | Some r => mret r
  | None =>
      match input_Tensor4D inputs with
      | Some t => new_NetInput (OfTensor4D t) None ≫= afterCreate manageCreatedInput
      | None =>
          if bool_decide (length (inputArgArray inputs) = 0) then
            throw "toNetInput - empty array passed as input"
          else
            inputArray ← liftE (Array_map (reduceBatch inputs)
                                  (resolveInput <$> inputArgArray inputs));
            _ ← liftE (Array_forEach (checkElement inputs) inputArray);
            _ ← awaitAll inputArray;
            new_NetInput (OfArray inputArray) (Some (Array_isArray inputs))
              ≫= afterCreate manageCreatedInput
      end
  end.

End ToNetInput.

(** A DOM for examples: [resolveInput] as [document.getElementById] on
    strings (an unknown id gives [null]) and the identity elsewhere. *)
Definition resolveInput_dom (document : list (string * Media)) (a : TNetInputArg)
  : TNetInputArg :=
  match a with
  | AString id =>
      match list_find (λ p, p.1 = id) document with
      | Some (_, (_, m)) => AMedia m
      | None => AOther
      end
  | _ => a
  end.


(** *** The vocabulary of the statements about [toNetInput] *)

(** The four messages, with the index hint and the cited value left
    open. *)
Definition emptyInputError : Error :=
  "toNetInput - empty array passed as input".
Definition invalidBatchSizeError (hint : string) (batchSize : nat) : Error :=
  "toNetInput -" +:+ hint +:+ " tf.Tensor4D with batchSize " +:+ num batchSize
  +:+ " passed, but not supported in input array".
Definition unresolvedIdentifierError (hint : string) (id : string) : Error :=
  "toNetInput -" +:+ hint
  +:+ " string passed, but could not resolve HTMLElement for element id " +:+ id.
Definition unsupportedTypeError (hint : string) : Error :=
  "toNetInput -" +:+ hint
  +:+ " expected media to be of type HTMLImageElement | HTMLVideoElement | HTMLCanvasElement | tf.Tensor3D, or to be an element id".

(** The hint that cites index [k], present for array inputs only. *)
Definition idxHint (fromArrayInput : bool) (k : nat) : string :=
  if fromArrayInput then " at input index " +:+ num k +:+ ":" else "".

(** The type error for the element at index [k]: the identifier when
    the original element was a string, the accepted types otherwise. *)
Definition typeError (inputs : TNetInput) (k : nat) : Error :=
  match inputArgArray inputs !! k with
  | Some (AString id) => unresolvedIdentifierError (idxHint (Array_isArray inputs) k) id
  | _ => unsupportedTypeError (idxHint (Array_isArray inputs) k)
  end.

(** The leading dimension of a tensor. *)
Definition batchSizeOf (a : TNetInputArg) : nat :=
  match a with ATensor t => default 0 (shape t !! 0) | _ => 0 end.

(** A 4D tensor whose batch dimension is not 1. *)
Definition badBatch (a : TNetInputArg) : bool :=
  isTensor4D a && negb (Nat.eqb (batchSizeOf a) 1).

(** The per-item form of a resolved element: a 4D tensor loses its
    leading axis, anything else is kept. *)
Definition dropBatchAxis (a : TNetInputArg) : TNetInputArg :=
  match a with
  | ATensor t =>
      if isTensor4D a then ATensor (mkTensor (dataId t) (tail (shape t))) else a
  | _ => a
  end.

(** A media-like object or a 3-dimensional tensor. *)
Definition accepted (a : TNetInputArg) : bool := isMediaElement a || isTensor3D a.

(** How many objects a [NetInput] was given to wrap. *)
Definition wrappedCount (src : NetInputSource) : nat :=
  match src with OfTensor4D _ => 1 | OfArray items => length items end.

Section Validity.
Variable resolveInput : TNetInputArg → TNetInputArg.
Variable awaitMediaLoaded : Media → option Rejection.

(** The per-item elements of an input: resolved, batch axis dropped. *)
Definition perItem (inputs : TNetInput) : list TNetInputArg :=
  (λ a, dropBatchAxis (resolveInput a)) <$> inputArgArray inputs.

(** A valid raw input: a single 4D tensor, or a non-empty array or a
    single argument whose elements all resolve to a media element, a 3D
    tensor or a 4D tensor of batch size 1, every media element of which
    loads. *)
Definition validInput (inputs : TNetInput) : bool :=
  match instanceof_NetInput inputs, input_Tensor4D inputs with
  | Some _, _ => false
  | None, Some _ => true
  | None, None =>
      negb (Nat.eqb (length (inputArgArray inputs)) 0)
      && forallb (λ a, negb (badBatch (resolveInput a))) (inputArgArray inputs)
      && forallb accepted (perItem inputs)
      && forallb (λ m, bool_decide (awaitMediaLoaded m = None)) (mediaOf (perItem inputs))
  end.

End Validity.

(** Every media element has finished loading. *)
Definition loaded : Media → option Rejection := λ _, None.

(** The store before anything was created or awaited. *)
Definition world0 : World := mkWorld [] [].

(** Sample arguments: an image, an [h × w × c] tensor, a batched tensor
    of [b] images, and a document holding the image under the id
    ["face"]. *)
Definition sampleImage : TNetInputArg := AMedia (HTMLImageElement 1).
Definition sampleTensor3D : TNetInputArg := ATensor (mkTensor 7 [10; 10; 3]).
Definition sampleTensor4D (b : nat) : TNetInputArg := ATensor (mkTensor 8 [b; 10; 10; 3]).
Definition sampleDocument : list (string * Media) := [("face", HTMLImageElement 1)].

(** Images and videos never load: the load promise of an image rejects
    late, that of a video early; a canvas has nothing to load. *)
Definition rejected (md : Media) : option Rejection :=
  match md with
  | HTMLImageElement _ => Some (7, "image failed")
  | HTMLVideoElement _ => Some (2, "video failed")
  | HTMLCanvasElement _ => None
  end.
Definition sampleVideo : TNetInputArg := AMedia (HTMLVideoElement 2).

End InputCoercion.

(** ** allFacesFactory.ts *)

Module Pipeline.

Definition TNetInput := InputCoercion.TNetInput.

Record Rect := mkRect { x : Z; y : Z; width : Z; height : Z }.

(** Modelled from the spec: class [FaceDetection] is not part of the
    sources at hand.  "Detection: one bounding box + confidence score
    per detected face." *)
Record FaceDetection := mkFaceDetection { score : Q; box : Rect }.
Definition getBox (d : FaceDetection) : Rect := box d.

(** Landmarks are an ordered sequence of 2D points, a descriptor is a
    vector of numbers. *)
Definition FaceLandmarks := list (Z * Z).
Definition Descriptor := list Q.

(** A tensor cut out of the input: its handle in the tensor engine, the
    input it was cut from and the region. *)
Record FaceTensor := mkFaceTensor {
  handle : nat;
  source : TNetInput;
  region : Rect
}.

(** [descriptor] is [None] when the slot read was [undefined]. *)
Record FullFaceDescription := mkFullFaceDescription {
  detection : FaceDetection;
  landmarks : FaceLandmarks;
  descriptor : option Descriptor
}.

(** What the pipeline does to the tensor engine and to the networks, in
    the order it does it. *)
Inductive Event :=
| EvLocateFaces
| EvAlloc (h : nat)
| EvDetectLandmarks (hs : list nat)
| EvComputeFaceDescriptor (h : nat)
| EvDispose (h : nat).

(** The tensor engine as the pipeline sees it: the next free handle,
    the handles whose storage is allocated, and the events so far. *)
Record Engine := mkEngine {
  nextId : nat;
  live : gset nat;
  trace : list Event
}.

(** The three networks, by the one method the pipeline calls on each.
    A call either rejects or resolves with its result; the recognizer
    calls run side by side, so their rejections come with their time.
    [locateFaces] takes the optional [maxResults] of its declaration. *)
Record FaceDetectionNet := mkFaceDetectionNet {
  locateFaces : TNetInput → Q → option nat → Error + list FaceDetection
}.
Record FaceLandmarkNet := mkFaceLandmarkNet {
  detectLandmarks : list FaceTensor → Error + list FaceLandmarks
}.
Record FaceRecognitionNet := mkFaceRecognitionNet {
  computeFaceDescriptor : FaceTensor → Rejection + Descriptor
}.

(** [await net.method(...)]: the call is recorded, its rejection is
    thrown. *)
Definition await {A} (ev : Event) (r : Error + A) : M Engine A :=
  λ s, (mkEngine (nextId s) (live s) (trace s ++ [ev]), r).

(** A fresh tensor holding the [region] of [input]. *)
Definition tf_alloc (input : TNetInput) (region : Rect) : M Engine FaceTensor :=
  λ s, (mkEngine (S (nextId s)) ({[nextId s]} ∪ live s) (trace s ++ [EvAlloc (nextId s)]),
        inr (mkFaceTensor (nextId s) input region)).

(** [t.dispose()] *)
Definition dispose (t : FaceTensor) : M Engine unit :=
  λ s, (mkEngine (nextId s) (live s ∖ {[handle t]}) (trace s ++ [EvDispose (handle t)]),
        inr tt).

(** [ts.forEach(t => t.dispose())] *)
Fixpoint forEach_dispose (ts : list FaceTensor) : M Engine unit :=
  match ts with
  | [] => mret tt
  | t :: ts' => dispose t ≫= λ _, forEach_dispose ts'
  end.

Fixpoint cropAll (input : TNetInput) (boxes : list Rect) : M Engine (list FaceTensor) :=
  match boxes with
  | [] => mret []
  | b :: boxes' =>
      t ← tf_alloc input b;
      ts ← cropAll input boxes';
      mret (t :: ts)
  end.

(** [Promise.all(promises)]: the results in index order when every
    promise resolves, and otherwise the rejection that arrives first. *)
Definition Promise_all {A} (promises : list (Rejection + A)) : Error + list A :=
  match earliest (omap (λ p, match p with inl r => Some r | inr _ => None end) promises) with
  | Some r => inl r.2
  | None => inr (omap (λ p, match p with inr a => Some a | inl _ => None end) promises)
  end.

(** [await Promise.all(ts.map(t => net.computeFaceDescriptor(t)))]:
    every call is issued, in index order, before any result is awaited. *)
Definition awaitDescriptors (recognitionNet : FaceRecognitionNet) (ts : list FaceTensor)
  : M Engine (list Descriptor) :=
  λ s, (mkEngine (nextId s) (live s)
          (trace s ++ (EvComputeFaceDescriptor ∘ handle <$> ts)),
        Promise_all (computeFaceDescriptor recognitionNet <$> ts)).

(** The engine after [n] allocations. *)
Definition allocated (n : nat) (s : Engine) : Engine :=
  mkEngine (nextId s + n) (list_to_set (seq (nextId s) n) ∪ live s)
           (trace s ++ (EvAlloc <$> seq (nextId s) n)).

(** Reading a property of [undefined]. *)
Definition TypeError (property : string) : Error :=
  "TypeError: Cannot read property '" +:+ property +:+ "' of undefined".

Section AllFaces.

(** The methods of [FaceLandmarks] the pipeline calls, and when cropping
    rejects ([None]: it does not; [Some (leftover, e)]: it rejects with
    [e] and leaves [leftover] tensors allocated that nobody holds). *)
Variable align : FaceLandmarks → Rect → Rect.
Variable shiftByPoint : FaceLandmarks → Rect → FaceLandmarks.
Variable cropError : TNetInput → list Rect → option (nat * Error).

(** Modelled from the spec: [extractFaceTensors] is not part of the
    sources at hand.  "For each Detection, extract a tensor cropped to
    its box from the original NetInput": one fresh tensor per box, in
    order, unless the stage fails.  "If a stage fails after allocating
    intermediate tensors but before its normal cleanup point, those
    tensors are not guaranteed released": a failing call may leave
    tensors of its own behind. *)
Definition extractFaceTensors (input : TNetInput) (boxes : list Rect)
  : M Engine (list FaceTensor) :=
  match cropError input boxes with
  | Some (leftover, e) => λ s, (allocated leftover s, inl e)
  | None => cropAll input boxes
  end.

(** The function the factory returns.  [extractFaceTensors] is handed
    the detections themselves the first time and takes the box of each;
    the second time it is handed boxes. *)
Definition allFacesFactory
    (detectionNet : FaceDetectionNet)
    (landmarkNet : FaceLandmarkNet)
    (recognitionNet : FaceRecognitionNet)
    (input : TNetInput) (minConfidence : Q)
  : M Engine (list FullFaceDescription) :=
  detections ← await EvLocateFaces (locateFaces detectionNet input minConfidence None);
  faceTensors ← extractFaceTensors input (getBox <$> detections);
  faceLandmarksByFace ←
    await (EvDetectLandmarks (handle <$> faceTensors))
          (detectLandmarks landmarkNet faceTensors);
  _ ← forEach_dispose faceTensors;
  alignedFaceBoxes ←
    liftE (Array_map
             (λ landmarks i,
                match detections !! i with
                | Some d => inr (align landmarks (getBox d))
                | None => inl (TypeError "getBox")
                end)
             faceLandmarksByFace);
  alignedFaceTensors ← extractFaceTensors input alignedFaceBoxes;
  descriptors ← awaitDescriptors recognitionNet alignedFaceTensors;
  _ ← forEach_dispose alignedFaceTensors;
  liftE (Array_map
           (λ detection i,
              match faceLandmarksByFace !! i with
              | Some l =>
                  inr (mkFullFaceDescription detection
                         (shiftByPoint l (getBox detection)) (descriptors !! i))
              | None => inl (TypeError "shiftByPoint")
              end)
           detections).

(** A call of the returned function with an optional third argument:
    the function binds [(input, minConfidence)] and a surplus argument
    is dropped. *)
Definition allFaces_call
    (detectionNet : FaceDetectionNet)
    (landmarkNet : FaceLandmarkNet)
    (recognitionNet : FaceRecognitionNet)
    (input : TNetInput) (minConfidence : Q) (maxResults : option nat)
  : M Engine (list FullFaceDescription) :=
  allFacesFactory detectionNet landmarkNet recognitionNet input minConfidence.

End AllFaces.

(** *** The vocabulary of the statements about the pipeline *)

(** The tensors that cropping [boxes] allocates from handle [h0] on. *)
Definition cropsFrom (h0 : nat) (input : TNetInput) (boxes : list Rect) : list FaceTensor :=
  imap (λ i b, mkFaceTensor (h0 + i) input b) boxes.

(** The engine after the disposal of the handles [hs], and after the
    events [evs] were recorded. *)
Definition disposed (hs : list nat) (s : Engine) : Engine :=
  mkEngine (nextId s) (live s ∖ list_to_set hs) (trace s ++ (EvDispose <$> hs)).
Definition recorded (evs : list Event) (s : Engine) : Engine :=
  mkEngine (nextId s) (live s) (trace s ++ evs).

(** The events of a call since it started. *)
Definition eventsSince (before after : Engine) : list Event :=
  drop (length (trace before)) (trace after).

Definition allocations (evs : list Event) : list nat :=
  omap (λ ev, match ev with EvAlloc h => Some h | _ => None end) evs.
Definition releases (evs : list Event) : list nat :=
  omap (λ ev, match ev with EvDispose h => Some h | _ => None end) evs.

(** Modelled from the spec: [FaceDetectionNet.locateFaces] is only
    declared in the sources at hand.  "Returns a list of (box,
    confidence) pairs filtered by a minimum-confidence threshold and
    capped at an optional maximum-result count", "sorted by descending
    confidence with input-order tie-break". *)
Fixpoint insertByScore (d : FaceDetection) (sorted : list FaceDetection) : list FaceDetection :=
  match sorted with
  | [] => [d]
  | d' :: rest =>
      if Qle_bool (score d') (score d) then d :: d' :: rest
      else d' :: insertByScore d rest
  end.
Definition sortByScore (ds : list FaceDetection) : list FaceDetection :=
  foldr insertByScore [] ds.
Definition locateFaces_spec (found : TNetInput → list FaceDetection)
    (input : TNetInput) (minConfidence : Q) (maxResults : option nat)
  : Error + list FaceDetection :=
  let sorted :=
    sortByScore (List.filter (λ d, Qle_bool minConfidence (score d)) (found input)) in
  inr (match maxResults with Some k => take k sorted | None => sorted end).

(** Descending by confidence: [a] may come before [b]. *)
Definition byScore (a b : FaceDetection) : Prop := (score b <= score a)%Q.

(** Sample collaborators: a detector that finds two faces, a landmark
    network with one fixed landmark set per tensor, one that rejects, a
    recognizer with a fixed descriptor, and the landmark geometry. *)
Definition sampleInput : TNetInput := InputCoercion.InArg InputCoercion.sampleImage.
Definition sampleFaces (_ : TNetInput) : list FaceDetection :=
  [mkFaceDetection (6 # 10) (mkRect 10 20 30 40);
   mkFaceDetection (8 # 10) (mkRect 50 60 30 40)].
Definition sampleDetectionNet : FaceDetectionNet :=
  mkFaceDetectionNet (locateFaces_spec sampleFaces).
Definition sampleLandmarkNet : FaceLandmarkNet :=
  mkFaceLandmarkNet (λ ts, inr ((λ _, [(1, 2); (3, 4)]%Z) <$> ts)).
Definition failingLandmarkNet : FaceLandmarkNet :=
  mkFaceLandmarkNet (λ _, inl "landmark net failed").
Definition sampleRecognitionNet : FaceRecognitionNet :=
  mkFaceRecognitionNet (λ t, inr [inject_Z (Z.of_nat (handle t))]).
Definition sampleAlign (l : FaceLandmarks) (r : Rect) : Rect :=
  mkRect (x r + 1) (y r + 1) (width r - 2) (height r - 2).
Definition sampleShift (l : FaceLandmarks) (r : Rect) : FaceLandmarks :=
  (λ p, (p.1 + x r, p.2 + y r)%Z) <$> l.
Definition noCropError : TNetInput → list Rect → option (nat * Error) := λ _ _, None.
Definition engine0 : Engine := mkEngine 0 ∅ [].

(** What the sample collaborators answer on the sample input. *)
Definition sampleDetections : list FaceDetection :=
  [mkFaceDetection (8 # 10) (mkRect 50 60 30 40);
   mkFaceDetection (6 # 10) (mkRect 10 20 30 40)].
Definition sampleLandmarks : list FaceLandmarks :=
  [[(1, 2); (3, 4)]%Z; [(1, 2); (3, 4)]%Z].
Definition sampleDescriptors : list Descriptor := [[(2 # 1)%Q]; [(3 # 1)%Q]].
Definition sampleResult : list FullFaceDescription :=
  [mkFullFaceDescription (mkFaceDetection (8 # 10) (mkRect 50 60 30 40))
     [(51, 62); (53, 64)]%Z (Some [(2 # 1)%Q]);
   mkFullFaceDescription (mkFaceDetection (6 # 10) (mkRect 10 20 30 40))
     [(11, 22); (13, 24)]%Z (Some [(3 # 1)%Q])].

(** Every allocated handle was handed out by the engine: it lies below
    the next free one. *)
Definition wellFormed (s : Engine) : Prop :=
  set_Forall (λ h, (h < nextId s)%nat) (live s).

(** The events replayed on a set of allocated handles: the set they
    leave, or [None] as soon as one is out of line, that is allocates a
    handle that is allocated, or hands to a network or disposes a handle
    that is not. *)
Fixpoint replay (evs : list Event) (l : gset nat) : option (gset nat) :=
  match evs with
  | [] => Some l
  | EvLocateFaces :: evs' => replay evs' l
  | EvAlloc h :: evs' => if decide (h ∈ l) then None else replay evs' ({[h]} ∪ l)
  | EvDetectLandmarks hs :: evs' =>
      if decide (Forall (λ h, h ∈ l) hs) then replay evs' l else None
  | EvComputeFaceDescriptor h :: evs' => if decide (h ∈ l) then replay evs' l else None
  | EvDispose h :: evs' => if decide (h ∈ l) then replay evs' (l ∖ {[h]}) else None
  end.

(** [s] was reached from [s0] by events that replay without fault. *)
Definition consistent (s0 s : Engine) : Prop :=
  wellFormed s
  ∧ (nextId s0 ≤ nextId s)%nat
  ∧ ∃ evs, trace s = trace s0 ++ evs ∧ replay evs (live s0) = Some (live s).

(** More sample collaborators: a detector that rejects, a recognizer
    that rejects late on the crop of handle 2 and early on every other,
    a landmark network that answers with one landmark set too many, one
    that answers with a single set whatever it is given, a cropping that
    rejects whatever it is given and leaves three tensors behind, and
    one that does so on the aligned boxes of the sample run. *)
Definition failingDetectionNet : FaceDetectionNet :=
  mkFaceDetectionNet (λ _ _ _, inl "detector failed").
Definition failingRecognitionNet : FaceRecognitionNet :=
  mkFaceRecognitionNet
    (λ t, inl (if Nat.eqb (handle t) 2 then (5, "slow") else (1, "fast"))).
Definition eagerLandmarkNet : FaceLandmarkNet :=
  mkFaceLandmarkNet (λ ts, inr ([(0, 0)%Z] :: ((λ _, [(1, 2); (3, 4)]%Z) <$> ts))).
Definition rawCropError (_ : TNetInput) (_ : list Rect) : option (nat * Error) :=
  Some (3, "crop failed").
Definition alignedCropError (_ : TNetInput) (boxes : list Rect) : option (nat * Error) :=
  match boxes with
  | b :: _ => if (x b =? 51)%Z then Some (3, "crop failed") else None
  | [] => None
  end.

End Pipeline.

(** * Arrays with throwing callbacks *)

Module ArrayFacts.

Lemma Array_map_from_inr {A B} (f : A → nat → Error + B) (g : A → B) i l :
  (∀ k x, l !! k = Some x → f x (i + k) = inr (g x)) →
  Array_map_from f i l = inr (g <$> l).
Proof.
  revert i. induction l as [|x l IH]; intros i Hf; [done|].
  cbn. rewrite <- (Nat.add_0_r i) at 1. rewrite (Hf 0 x eq_refl).
  rewrite IH; [done|].
  intros k y Hk. rewrite Nat.add_succ_comm. by apply Hf.
Qed.

Lemma Array_map_from_inl {A B} (f : A → nat → Error + B) i l k x e :
  l !! k = Some x →
  f x (i + k) = inl e →
  (∀ j y, j < k → l !! j = Some y → ∃ z, f y (i + j) = inr z) →
  Array_map_from f i l = inl e.
Proof.
  revert i k. induction l as [|y l IH]; intros i k Hk He Hlt; [done|].
  destruct k as [|k]; cbn in *.
  - injection Hk as ->. rewrite Nat.add_0_r in He. by rewrite He.
  - destruct (Hlt 0 y ltac:(lia) eq_refl) as [z Hz].
    rewrite Nat.add_0_r in Hz. rewrite Hz.
    rewrite (IH (S i) k); [done|done| |].
    + by rewrite Nat.add_succ_comm.
    + intros j y' Hj Hy'. rewrite Nat.add_succ_comm. apply Hlt; [lia|done].
Qed.

Lemma Array_map_from_inv {A B} (f : A → nat → Error + B) i l ys :
  Array_map_from f i l = inr ys →
  length ys = length l ∧
  ∀ k x, l !! k = Some x → ∃ y, f x (i + k) = inr y ∧ ys !! k = Some y.
Proof.
  revert i ys. induction l as [|x l IH]; intros i ys H; cbn in H.
  - injection H as <-. split; [done|]. intros k x Hk. by destruct k.
  - destruct (f x i) as [e|y] eqn:Hx; [done|].
    destruct (Array_map_from f (S i) l) as [e|ys'] eqn:Hl; [done|].
    injection H as <-. destruct (IH _ _ Hl) as [Hlen Hall].
    split; [cbn; lia|].
    intros [|k] x' Hk; cbn in Hk.
    + injection Hk as <-. exists y. by rewrite Nat.add_0_r.
    + destruct (Hall k x' Hk) as (y' & Hy' & Hk').
      exists y'. by rewrite <- Nat.add_succ_comm.
Qed.

Lemma Array_forEach_from_inr {A} (f : A → nat → Error + unit) i l :
  (∀ k x, l !! k = Some x → f x (i + k) = inr tt) →
  Array_forEach_from f i l = inr tt.
Proof.
  revert i. induction l as [|x l IH]; intros i Hf; [done|].
  cbn. rewrite <- (Nat.add_0_r i) at 1. rewrite (Hf 0 x eq_refl).
  apply IH. intros k y Hk. rewrite Nat.add_succ_comm. by apply Hf.
Qed.

Lemma Array_forEach_from_inl {A} (f : A → nat → Error + unit) i l k x e :
  l !! k = Some x →
  f x (i + k) = inl e →
  (∀ j y, j < k → l !! j = Some y → f y (i + j) = inr tt) →
  Array_forEach_from f i l = inl e.
Proof.
  revert i k. induction l as [|y l IH]; intros i k Hk He Hlt; [done|].
  destruct k as [|k]; cbn in *.
  - injection Hk as ->. rewrite Nat.add_0_r in He. by rewrite He.
  - pose proof (Hlt 0 y ltac:(lia) eq_refl) as Hz.
    rewrite Nat.add_0_r in Hz. rewrite Hz.
    apply (IH (S i) k); [done| |].
    + by rewrite Nat.add_succ_comm.
    + intros j y' Hj Hy'. rewrite Nat.add_succ_comm. apply Hlt; [lia|done].
Qed.

Lemma Array_map_from_total {A B} (f : A → nat → Error + B) i l :
  (∀ k x, l !! k = Some x → ∃ y, f x (i + k) = inr y) →
  ∃ ys, Array_map_from f i l = inr ys.
Proof.
  revert i. induction l as [|x l IH]; intros i Hf; [by eexists|].
  cbn. destruct (Hf 0 x eq_refl) as [y Hy]. rewrite Nat.add_0_r in Hy. rewrite Hy.
  destruct (IH (S i)) as [ys Hys].
  - intros k x' Hk. rewrite Nat.add_succ_comm. by apply Hf.
  - rewrite Hys. by eexists.
Qed.

(** [earliest] picks one of the rejections, and finds one whenever there
    is one. *)
Lemma earliest_None rs : earliest rs = None ↔ rs = [].
Proof.
  split; [|by intros ->]. destruct rs as [|r rest]; [done|]. cbn [earliest].
  destruct (earliest rest) as [r'|]; [|done]. by destruct (Nat.ltb r'.1 r.1).
Qed.

Lemma earliest_least rs r r' : earliest rs = Some r → r' ∈ rs → (r.1 ≤ r'.1)%nat.
Proof.
  revert r. induction rs as [|r0 rest IH]; intros r; [done|]. cbn [earliest].
  destruct (earliest rest) as [r1|] eqn:Hrest.
  - destruct (Nat.ltb_spec r1.1 r0.1); intros [= <-] [->|Hin]%elem_of_cons;
      try lia; specialize (IH _ eq_refl Hin); lia.
  - apply earliest_None in Hrest as ->. intros [= <-] [->|Hin]%elem_of_cons; [lia|].
    by apply elem_of_nil in Hin.
Qed.

Lemma earliest_elem_of rs r : earliest rs = Some r → r ∈ rs.
Proof.
  revert r. induction rs as [|r0 rest IH]; intros r; [done|]. cbn [earliest].
  destruct (earliest rest) as [r'|].
  - destruct (Nat.ltb r'.1 r0.1); intros [= <-]; [right; by apply IH|left].
  - intros [= <-]. left.
Qed.

End ArrayFacts.

(** * Properties of [toNetInput] *)

Module InputCoercionProofs.
Import InputCoercion ArrayFacts.

(** ** The two callbacks *)

Lemma reduceBatch_ok inputs a i :
  badBatch a = false → reduceBatch inputs a i = inr (dropBatchAxis a).
Proof.
  destruct a as [id|m|t|]; try done.
  unfold badBatch, reduceBatch, dropBatchAxis, batchSizeOf.
  destruct (isTensor4D (ATensor t)); [|done]. cbn.
  intros H%negb_false_iff%Nat.eqb_eq. rewrite H.
  by rewrite bool_decide_eq_false_2 by (intros ?; done).
Qed.

Lemma reduceBatch_bad inputs a i :
  badBatch a = true →
  reduceBatch inputs a i
  = inl (invalidBatchSizeError (idxHint (Array_isArray inputs) i) (batchSizeOf a)).
Proof.
  destruct a as [id|m|t|]; try done.
  unfold badBatch, reduceBatch, batchSizeOf.
  destruct (isTensor4D (ATensor t)); [|done]. cbn.
  intros H%negb_true_iff%Nat.eqb_neq.
  by rewrite bool_decide_eq_true_2.
Qed.

Lemma checkElement_ok inputs a i :
  accepted a = true → checkElement inputs a i = inr tt.
Proof.
  unfold accepted, checkElement. intros H.
  destruct (isMediaElement a), (isTensor3D a); done.
Qed.

Lemma checkElement_bad inputs a i :
  accepted a = false → checkElement inputs a i = inl (typeError inputs i).
Proof.
  unfold accepted, checkElement, typeError. intros H.
  destruct (isMediaElement a), (isTensor3D a); try done. cbn.
  destruct (inputArgArray inputs !! i) as [[]|]; done.
Qed.

(** Dropping the batch axis of a 4D tensor gives a 3D tensor, and
    leaves media elements as they are. *)
Lemma dropBatchAxis_4D t :
  length (shape t) = 4 →
  dropBatchAxis (ATensor t) = ATensor (mkTensor (dataId t) (tail (shape t)))
  ∧ length (tail (shape t)) = 3.
Proof.
  intros H. unfold dropBatchAxis, isTensor4D, isTensor.
  rewrite bool_decide_eq_true_2 by done. split; [done|].
  destruct (shape t); cbn in *; lia.
Qed.

Lemma mediaOf_dropBatchAxis l : mediaOf (dropBatchAxis <$> l) = mediaOf l.
Proof.
  unfold mediaOf. induction l as [|a l IH]; [done|].
  cbn. rewrite IH. destruct a as [| |t|]; try done.
  unfold dropBatchAxis. by destruct (isTensor4D (ATensor t)).
Qed.

Section Paths.
Variable resolveInput : TNetInputArg → TNetInputArg.
Variable awaitMediaLoaded : Media → option Rejection.

Local Abbreviation toNetInput := (toNetInput resolveInput awaitMediaLoaded).
Local Abbreviation perItem := (perItem resolveInput).

(** The first pass over a resolved array: it fails at the first 4D
    tensor of batch size other than 1, and otherwise yields the per-item
    elements. *)
Lemma batch_pass_bad inputs k a :
  list_find (λ a, badBatch a = true) (resolveInput <$> inputArgArray inputs) = Some (k, a) →
  Array_map (reduceBatch inputs) (resolveInput <$> inputArgArray inputs)
  = inl (invalidBatchSizeError (idxHint (Array_isArray inputs) k) (batchSizeOf a)).
Proof.
  intros (Hk & Hbad & Hfirst)%list_find_Some.
  apply (Array_map_from_inl _ 0 _ k a); [done|by apply reduceBatch_bad|].
  intros j y Hj Hy. exists (dropBatchAxis y). apply reduceBatch_ok.
  specialize (Hfirst j y Hy Hj). by destruct (badBatch y).
Qed.

Lemma batch_pass_ok inputs :
  list_find (λ a, badBatch a = true) (resolveInput <$> inputArgArray inputs) = None →
  Array_map (reduceBatch inputs) (resolveInput <$> inputArgArray inputs)
  = inr (perItem inputs).
Proof.
  intros Hnone%list_find_None.
  unfold Array_map, InputCoercion.perItem.
  rewrite (Array_map_from_inr _ dropBatchAxis).
  - by rewrite <- list_fmap_compose.
  - intros k x Hk. apply reduceBatch_ok.
    apply list_elem_of_lookup_2 in Hk.
    rewrite Forall_forall in Hnone. specialize (Hnone x Hk).
    by destruct (badBatch x).
Qed.

(** The second pass: it fails at the first element that is neither a
    media element nor a 3D tensor. *)
Lemma type_pass_bad inputs (items : list TNetInputArg) k a :
  list_find (λ a, accepted a = false) items = Some (k, a) →
  Array_forEach (checkElement inputs) items = inl (typeError inputs k).
Proof.
  intros (Hk & Hbad & Hfirst)%list_find_Some.
  apply (Array_forEach_from_inl _ 0 _ k a); [done|by apply checkElement_bad|].
  intros j y Hj Hy. apply checkElement_ok.
  specialize (Hfirst j y Hy Hj). by destruct (accepted y).
Qed.

Lemma type_pass_ok inputs (items : list TNetInputArg) :
  list_find (λ a, accepted a = false) items = None →
  Array_forEach (checkElement inputs) items = inr tt.
Proof.
  intros Hnone%list_find_None.
  apply Array_forEach_from_inr. intros k x Hk. apply checkElement_ok.
  apply list_elem_of_lookup_2 in Hk.
  rewrite Forall_forall in Hnone. specialize (Hnone x Hk).
  by destruct (accepted x).
Qed.

(** [toNetInput] past its two early returns. *)
Lemma toNetInput_items inputs m w :
  instanceof_NetInput inputs = None →
  input_Tensor4D inputs = None →
  inputArgArray inputs ≠ [] →
  toNetInput inputs m w
  = (inputArray ← liftE (Array_map (reduceBatch inputs)
                           (resolveInput <$> inputArgArray inputs));
     _ ← liftE (Array_forEach (checkElement inputs) inputArray);
     _ ← awaitAll awaitMediaLoaded inputArray;
     new_NetInput (OfArray inputArray) (Some (Array_isArray inputs))
       ≫= afterCreate m) w.
Proof.
  intros H1 H2 H3. unfold InputCoercion.toNetInput. rewrite H1, H2.
  rewrite bool_decide_eq_false_2; [done|].
  by destruct (inputArgArray inputs).
Qed.

(** Creating an instance and handing it to [afterCreate]: one new
    instance at the end of the store, managed as asked. *)
Lemma create_afterCreate src flag m w :
  (new_NetInput src flag ≫= afterCreate m) w
  = (mkWorld (heap w ++ [mkNetInput src (default false flag) m]) (awaited w),
     inr (length (heap w))).
Proof.
  unfold mbind, M_bind, new_NetInput, afterCreate.
  destruct m; [|done].
  unfold NetInput_managed. cbn. f_equal. f_equal.
  rewrite <- (Nat.add_0_r (length (heap w))).
  by rewrite alter_app_r.
Qed.

(** The three ways the per-item path ends. *)
Lemma toNetInput_batch_error inputs m w k a :
  instanceof_NetInput inputs = None →
  input_Tensor4D inputs = None →
  list_find (λ a, badBatch a = true) (resolveInput <$> inputArgArray inputs) = Some (k, a) →
  toNetInput inputs m w
  = (w, inl (invalidBatchSizeError (idxHint (Array_isArray inputs) k) (batchSizeOf a))).
Proof.
  intros H1 H2 Hfind. rewrite toNetInput_items; [|done|done|].
  - unfold mbind, M_bind, liftE. by rewrite (batch_pass_bad _ _ _ Hfind).
  - intros Hnil. rewrite Hnil in Hfind. done.
Qed.

Lemma toNetInput_type_error inputs m w k a :
  instanceof_NetInput inputs = None →
  input_Tensor4D inputs = None →
  list_find (λ a, badBatch a = true) (resolveInput <$> inputArgArray inputs) = None →
  list_find (λ a, accepted a = false) (perItem inputs) = Some (k, a) →
  toNetInput inputs m w = (w, inl (typeError inputs k)).
Proof.
  intros H1 H2 Hbatch Hfind. rewrite toNetInput_items; [|done|done|].
  - unfold mbind, M_bind, liftE. rewrite (batch_pass_ok _ Hbatch).
    by rewrite (type_pass_bad _ _ _ _ Hfind).
  - intros Hnil. unfold InputCoercion.perItem in Hfind. rewrite Hnil in Hfind. done.
Qed.

Lemma toNetInput_created inputs m w :
  instanceof_NetInput inputs = None →
  input_Tensor4D inputs = None →
  inputArgArray inputs ≠ [] →
  list_find (λ a, badBatch a = true) (resolveInput <$> inputArgArray inputs) = None →
  list_find (λ a, accepted a = false) (perItem inputs) = None →
  omap awaitMediaLoaded (mediaOf (perItem inputs)) = [] →
  toNetInput inputs m w
  = (mkWorld (heap w ++ [mkNetInput (OfArray (perItem inputs)) (Array_isArray inputs) m])
             (awaited w ++ mediaOf (perItem inputs)),
     inr (length (heap w))).
Proof.
  intros H1 H2 H3 Hbatch Htype Hload. rewrite toNetInput_items; [|done..].
  unfold mbind at 1 2 3. unfold M_bind, liftE.
  rewrite (batch_pass_ok _ Hbatch), (type_pass_ok _ _ Htype).
  unfold awaitAll. rewrite Hload. cbn [earliest].
  by rewrite create_afterCreate.
Qed.

End Paths.

(** From the boolean checks of [validInput] to the searches above. *)
Lemma forallb_list_find_None {A} (bad : A → bool) (l : list A) :
  forallb (λ a, negb (bad a)) l = true →
  list_find (λ a, bad a = true) l = None.
Proof.
  intros H. apply list_find_None, Forall_forall. intros x Hx%list_elem_of_In.
  rewrite forallb_forall in H. specialize (H x Hx). by destruct (bad x).
Qed.

Lemma forallb_accepted_find (l : list TNetInputArg) :
  forallb accepted l = true → list_find (λ a, accepted a = false) l = None.
Proof.
  intros H. apply list_find_None, Forall_forall. intros x Hx%list_elem_of_In.
  rewrite forallb_forall in H. specialize (H x Hx). by destruct (accepted x).
Qed.

Lemma forallb_loaded (awaitMediaLoaded : Media → option Rejection) (ms : list Media) :
  forallb (λ m, bool_decide (awaitMediaLoaded m = None)) ms = true →
  omap awaitMediaLoaded ms = [].
Proof.
  induction ms as [|m ms IH]; [done|]. cbn.
  intros [Hm Hms]%andb_true_iff. apply bool_decide_eq_true_1 in Hm.
  rewrite Hm. by apply IH.
Qed.

Section Inversion.
Variable resolveInput : TNetInputArg → TNetInputArg.
Variable awaitMediaLoaded : Media → option Rejection.

Local Abbreviation toNetInput := (toNetInput resolveInput awaitMediaLoaded).
Local Abbreviation perItem := (perItem resolveInput).

(** What a return from the per-item path tells: both passes went
    through, and the new instance wraps the per-item elements. *)
Lemma toNetInput_items_inv inputs m w w' r :
  instanceof_NetInput inputs = None →
  input_Tensor4D inputs = None →
  toNetInput inputs m w = (w', inr r) →
  list_find (λ a, badBatch a = true) (resolveInput <$> inputArgArray inputs) = None
  ∧ list_find (λ a, accepted a = false) (perItem inputs) = None
  ∧ heap w' = heap w ++ [mkNetInput (OfArray (perItem inputs)) (Array_isArray inputs) m]
  ∧ r = length (heap w).
Proof.
  intros H1 H2 Hret.
  destruct (list_find (λ a, badBatch a = true) (resolveInput <$> inputArgArray inputs))
    as [[k a]|] eqn:Hbatch.
  { rewrite (toNetInput_batch_error _ _ _ _ _ _ _ H1 H2 Hbatch) in Hret. done. }
  destruct (list_find (λ a, accepted a = false) (perItem inputs)) as [[k a]|] eqn:Htype.
  { rewrite (toNetInput_type_error _ _ _ _ _ _ _ H1 H2 Hbatch Htype) in Hret. done. }
  assert (inputArgArray inputs ≠ []) as Hne.
  { intros Hnil. unfold InputCoercion.toNetInput in Hret.
    rewrite H1, H2, Hnil in Hret. done. }
  rewrite toNetInput_items in Hret by done.
  unfold mbind at 1 2 3 in Hret. unfold M_bind, liftE in Hret.
  rewrite (batch_pass_ok _ _ Hbatch), (type_pass_ok _ _ Htype) in Hret.
  unfold awaitAll in Hret.
  destruct (earliest (omap awaitMediaLoaded (mediaOf (perItem inputs)))); [done|].
  rewrite create_afterCreate in Hret. by injection Hret as <- <-.
Qed.

End Inversion.

(** A valid input that is not a single 4D tensor goes through both
    passes and the wait. *)
Lemma valid_items resolveInput awaitMediaLoaded inputs m w :
  validInput resolveInput awaitMediaLoaded inputs = true →
  input_Tensor4D inputs = None →
  toNetInput resolveInput awaitMediaLoaded inputs m w
  = (mkWorld (heap w ++ [mkNetInput (OfArray (perItem resolveInput inputs))
                           (Array_isArray inputs) m])
             (awaited w ++ mediaOf (perItem resolveInput inputs)),
     inr (length (heap w)))
  ∧ Forall (λ a, accepted a = true) (perItem resolveInput inputs).
Proof.
  unfold validInput. intros Hvalid H4. rewrite H4 in Hvalid.
  destruct (instanceof_NetInput inputs) eqn:Hni; [done|].
  apply andb_true_iff in Hvalid as [[[Hlen Hbatch]%andb_true_iff Htype]%andb_true_iff Hload].
  apply negb_true_iff, Nat.eqb_neq in Hlen. split.
  - apply toNetInput_created; try done.
    + by destruct (inputArgArray inputs).
    + rewrite list_find_fmap.
      apply fmap_None. apply list_find_None, Forall_forall.
      intros x Hx%list_elem_of_In. cbn.
      rewrite forallb_forall in Hbatch. specialize (Hbatch x Hx).
      by destruct (badBatch (resolveInput x)).
    + by apply forallb_accepted_find.
    + by apply forallb_loaded.
  - apply Forall_forall. intros x Hx%list_elem_of_In.
    rewrite forallb_forall in Htype. by apply Htype.
Qed.

Section Claims.
Variable resolveInput : TNetInputArg → TNetInputArg.
Variable awaitMediaLoaded : Media → option Rejection.

Local Abbreviation toNetInput := (toNetInput resolveInput awaitMediaLoaded).
Local Abbreviation perItem := (perItem resolveInput).

(** C3: given a [NetInput] instance, [toNetInput] returns that very
    instance whatever the flag: the reference is the one passed in and
    the store is left as it was, so no instance is created, no managed
    flag is set and nothing is awaited.  Calling [toNetInput] on its own
    output therefore changes nothing: a call followed by a call on its
    result is the first call. *)
Theorem toNetInput_NetInput_same_instance
    (r : Ref) (m m' : bool) (inputs : TNetInput) (w : World) :
  toNetInput (InNetInput r) m w = (w, inr r)
  ∧ (toNetInput inputs m' ≫= λ n, toNetInput (InNetInput n) m) w
    = toNetInput inputs m' w.
Proof.
  split; [done|].
  unfold mbind, M_bind.
  by destruct (toNetInput inputs m' w) as [w' [e|n]].
Qed.

(** C6: on the empty array [toNetInput] throws the empty-input error;
    no [NetInput] is returned and none is created. *)
Theorem toNetInput_empty_array (m : bool) (w : World) :
  toNetInput (InArray []) m w
  = (w, inl "toNetInput - empty array passed as input").
Proof. done. Qed.

(** C10: a 4D tensor passed on its own is wrapped as it is, whatever
    its batch dimension: one new instance holding the tensor, managed
    exactly when [manageCreatedInput] is set.  Neither [resolveInput]
    nor the element check nor [awaitMediaLoaded] takes part: the outcome
    is the same for every one of them and nothing is awaited. *)
Theorem toNetInput_single_Tensor4D (t : Tensor) (m : bool) (w : World) :
  length (shape t) = 4 →
  toNetInput (InArg (ATensor t)) m w
  = (mkWorld (heap w ++ [mkNetInput (OfTensor4D t) false m]) (awaited w),
     inr (length (heap w))).
Proof.
  intros H4. unfold InputCoercion.toNetInput. cbn.
  rewrite bool_decide_eq_true_2 by done.
  by rewrite create_afterCreate.
Qed.

(** C7: a valid array of length N yields one new [NetInput] with the
    from-array flag set that wraps exactly the N per-item elements
    (resolved, batch axis dropped) in input order, each a media element
    or a 3D tensor; a valid single argument yields one new [NetInput]
    with the flag cleared that wraps exactly one object, the per-item
    element or, for a 4D tensor, the tensor itself. *)
Theorem toNetInput_valid (inputs : TNetInput) (m : bool) (w : World) :
  validInput resolveInput awaitMediaLoaded inputs = true →
  ∃ n w',
    toNetInput inputs m w = (w', inr (length (heap w)))
    ∧ heap w' = heap w ++ [n]
    ∧ managed n = m
    ∧ match inputs with
      | InArray elems =>
          fromArray n = true
          ∧ wrapped n = OfArray ((λ a, dropBatchAxis (resolveInput a)) <$> elems)
          ∧ wrappedCount (wrapped n) = length elems
          ∧ Forall (λ a, accepted a = true) (perItem inputs)
      | InArg a =>
          fromArray n = false
          ∧ wrappedCount (wrapped n) = 1
          ∧ match input_Tensor4D inputs with
            | Some t => wrapped n = OfTensor4D t
            | None =>
                wrapped n = OfArray [dropBatchAxis (resolveInput a)]
                ∧ accepted (dropBatchAxis (resolveInput a)) = true
            end
      | InNetInput _ => False
      end.
Proof.
  intros Hvalid.
  destruct (input_Tensor4D inputs) as [t|] eqn:H4.
  - destruct inputs as [|elems|[| |t'|]]; try done.
    pose proof H4 as H4'. cbn in H4'.
    destruct (bool_decide (length (shape t') = 4)) eqn:Hd; [|done].
    injection H4' as ->.
    eexists _, _. unfold InputCoercion.toNetInput.
    cbn [instanceof_NetInput]. rewrite H4, create_afterCreate.
    cbn. split_and!; done.
  - destruct (valid_items resolveInput awaitMediaLoaded inputs m w Hvalid H4)
      as [Hrun Hacc].
    exists (mkNetInput (OfArray (perItem inputs)) (Array_isArray inputs) m).
    eexists. split; [exact Hrun|]. split; [done|]. split; [done|].
    destruct inputs as [r|elems|a]; [done| |].
    + cbn. split_and!; try done. by rewrite length_fmap.
    + cbn. split_and!; try done.
      by apply Forall_inv in Hacc.
Qed.

(** C4 (amended): let the element at index [k] of an array input
    resolve to a 4D tensor.  If its batch dimension is not 1 and no
    earlier element is a 4D tensor of batch size other than 1, the call
    throws the invalid-batch-size error that cites index [k] and that
    batch size.  If its batch dimension is 1, the callback of the map
    reduces it to the 3D tensor left when the leading axis is dropped,
    and for a valid array the call returns a new [NetInput] that holds
    this 3D tensor at index [k].  Whenever the call returns, the batch
    dimension is 1 and the new [NetInput] holds the 3D tensor at index
    [k]. *)
Theorem toNetInput_array_Tensor4D
    (elems : list TNetInputArg) (k : nat) (a : TNetInputArg) (t : Tensor)
    (m : bool) (w : World) :
  elems !! k = Some a →
  resolveInput a = ATensor t →
  length (shape t) = 4 →
  (shape t !! 0 ≠ Some 1 →
   (∀ j b, j < k → elems !! j = Some b → badBatch (resolveInput b) = false) →
   toNetInput (InArray elems) m w
   = (w, inl (invalidBatchSizeError (" at input index " +:+ num k +:+ ":")
                (default 0 (shape t !! 0)))))
  ∧ (shape t !! 0 = Some 1 →
     reduceBatch (InArray elems) (resolveInput a) k
     = inr (ATensor (mkTensor (dataId t) (tail (shape t))))
     ∧ length (tail (shape t)) = 3
     ∧ (validInput resolveInput awaitMediaLoaded (InArray elems) = true →
        ∃ items,
          toNetInput (InArray elems) m w
          = (mkWorld (heap w ++ [mkNetInput (OfArray items) true m])
                     (awaited w ++ mediaOf items),
             inr (length (heap w)))
          ∧ length items = length elems
          ∧ items !! k = Some (ATensor (mkTensor (dataId t) (tail (shape t))))))
  ∧ (∀ w' r, toNetInput (InArray elems) m w = (w', inr r) →
     shape t !! 0 = Some 1
     ∧ ∃ items, heap w' !! r = Some (mkNetInput (OfArray items) true m)
                ∧ length items = length elems
                ∧ items !! k = Some (ATensor (mkTensor (dataId t) (tail (shape t))))
                ∧ length (tail (shape t)) = 3).
Proof.
  intros Hk Ha H4.
  assert ((resolveInput <$> elems) !! k = Some (ATensor t)) as Hrk.
  { by rewrite list_lookup_fmap, Hk, <- Ha. }
  assert (isTensor4D (ATensor t) = true) as Hd by by apply bool_decide_eq_true_2.
  assert (perItem (InArray elems) !! k
          = Some (ATensor (mkTensor (dataId t) (tail (shape t))))) as Hitem.
  { unfold InputCoercion.perItem. cbn. rewrite list_lookup_fmap, Hk. cbn. rewrite Ha.
    by destruct (dropBatchAxis_4D t H4) as [-> ?]. }
  destruct (shape t !! 0) as [b|] eqn:Hb.
  2: { apply lookup_ge_None in Hb. lia. }
  split_and!.
  - intros Hne Hfirst.
    pose proof (toNetInput_batch_error resolveInput awaitMediaLoaded
                  (InArray elems) m w k (ATensor t) eq_refl eq_refl) as Herr.
    unfold batchSizeOf in Herr. rewrite Hb in Herr. apply Herr.
    apply list_find_Some. split_and!; [done| |].
    + unfold badBatch. rewrite Hd. cbn. rewrite Hb. cbn.
      apply negb_true_iff, Nat.eqb_neq. congruence.
    + intros j y Hy Hj. apply list_lookup_fmap_Some in Hy as (b' & -> & Hb').
      by rewrite (Hfirst j b' Hj Hb').
  - intros [= ->]. split_and!.
    + rewrite Ha, reduceBatch_ok.
      * by destruct (dropBatchAxis_4D t H4) as [-> ?].
      * unfold badBatch. rewrite Hd. cbn. by rewrite Hb.
    + by destruct (dropBatchAxis_4D t H4).
    + intros Hvalid.
      destruct (valid_items resolveInput awaitMediaLoaded (InArray elems) m w
                  Hvalid eq_refl) as [Hrun _].
      exists (perItem (InArray elems)). split_and!; [done| |done].
      unfold InputCoercion.perItem. cbn. by rewrite length_fmap.
  - intros w' r (Hbatch & _ & Hheap & ->)%toNetInput_items_inv; [|done..].
    apply list_find_None in Hbatch. rewrite Forall_forall in Hbatch.
    specialize (Hbatch _ (list_elem_of_lookup_2 _ _ _ Hrk)).
    unfold badBatch in Hbatch. rewrite Hd in Hbatch. cbn in Hbatch.
    rewrite Hb in Hbatch. cbn in Hbatch.
    destruct (Nat.eqb_spec b 1) as [->|]; [|done].
    split; [done|]. eexists. rewrite Hheap, list_lookup_middle by done.
    split; [done|]. split_and!; [|done|by destruct (dropBatchAxis_4D t H4)].
    unfold InputCoercion.perItem. cbn. by rewrite length_fmap.
Qed.

(** C5 (amended): let the input go down the per-item path (it is not a
    [NetInput] and not a single 4D tensor) with no element resolving to
    a 4D tensor of batch size other than 1, and let [k] be the first
    index whose per-item element is neither a media element nor a 3D
    tensor.  Then the call throws a type error: the unresolved
    identifier when the original element at [k] was a string, the
    accepted types otherwise, and in both the hint citing [k] exactly
    when the input was an array. *)
Theorem toNetInput_type_error_first
    (inputs : TNetInput) (k : nat) (a : TNetInputArg) (m : bool) (w : World) :
  instanceof_NetInput inputs = None →
  input_Tensor4D inputs = None →
  (∀ b, b ∈ inputArgArray inputs → badBatch (resolveInput b) = false) →
  perItem inputs !! k = Some a →
  accepted a = false →
  (∀ j b, j < k → perItem inputs !! j = Some b → accepted b = true) →
  toNetInput inputs m w
  = (w, inl (let hint := if Array_isArray inputs
                         then " at input index " +:+ num k +:+ ":" else "" in
             match inputArgArray inputs !! k with
             | Some (AString id) => unresolvedIdentifierError hint id
             | _ => unsupportedTypeError hint
             end)).
Proof.
  intros H1 H2 Hbatch Hk Hbad Hfirst.
  apply (toNetInput_type_error _ _ inputs m w k a); [done..| |].
  - apply list_find_None, Forall_forall.
    intros x (b & -> & Hb)%list_elem_of_fmap. by rewrite (Hbatch b Hb).
  - apply list_find_Some. split_and!; [done..|].
    intros j y Hy Hj. by rewrite (Hfirst j y Hj Hy).
Qed.

End Claims.

(** Witness of C10: a batch of twelve images passed on its own. *)
Lemma toNetInput_single_Tensor4D_witness :
  toNetInput (resolveInput_dom sampleDocument) loaded
    (InArg (sampleTensor4D 12)) true world0
  = (mkWorld [mkNetInput (OfTensor4D (mkTensor 8 [12; 10; 10; 3])) false true] [],
     inr 0).
Proof.
  apply (toNetInput_single_Tensor4D (resolveInput_dom sampleDocument) loaded
           (mkTensor 8 [12; 10; 10; 3]) true world0).
  reflexivity.
Defined.

(** Witness of C7: an array of four valid arguments. *)
Lemma toNetInput_valid_witness :
  validInput (resolveInput_dom sampleDocument) loaded
    (InArray [sampleImage; sampleTensor3D; sampleTensor4D 1; AString "face"]) = true
  ∧ ∃ n w',
      toNetInput (resolveInput_dom sampleDocument) loaded
        (InArray [sampleImage; sampleTensor3D; sampleTensor4D 1; AString "face"])
        false world0 = (w', inr 0)
      ∧ heap w' = [n]
      ∧ fromArray n = true
      ∧ wrapped n = OfArray [sampleImage; sampleTensor3D;
                             ATensor (mkTensor 8 [10; 10; 3]); sampleImage].
Proof.
  split; [reflexivity|].
  destruct (toNetInput_valid (resolveInput_dom sampleDocument) loaded
              (InArray [sampleImage; sampleTensor3D; sampleTensor4D 1; AString "face"])
              false world0 eq_refl)
    as (n & w' & Hrun & Hheap & _ & Hflag & Hwrapped & _).
  exists n, w'. split_and!; assumption.
Defined.

(** Counterexample to C4 as stated: with two offending tensors the
    error cites the first one, not the element at index 1. *)
Lemma toNetInput_batch_error_not_every_index :
  [sampleTensor4D 2; sampleTensor4D 3] !! 1 = Some (sampleTensor4D 3)
  ∧ isTensor4D (sampleTensor4D 3) = true
  ∧ batchSizeOf (sampleTensor4D 3) = 3
  ∧ toNetInput (resolveInput_dom sampleDocument) loaded
      (InArray [sampleTensor4D 2; sampleTensor4D 3]) false world0
    = (world0, inl "toNetInput - at input index 0: tf.Tensor4D with batchSize 2 passed, but not supported in input array")
  ∧ toNetInput (resolveInput_dom sampleDocument) loaded
      (InArray [sampleTensor4D 2; sampleTensor4D 3]) false world0
    ≠ (world0, inl (invalidBatchSizeError " at input index 1:" 3)).
Proof. split_and!; [reflexivity..|]. vm_compute. discriminate. Qed.

(** Witness of C4: a batch of five images at index 1 of an array, which
    is rejected, and a batch of one image at index 1 of a valid array,
    which is wrapped as a 3D tensor. *)
Lemma toNetInput_array_Tensor4D_witness :
  ([sampleImage; sampleTensor4D 5] !! 1 = Some (sampleTensor4D 5)
   ∧ resolveInput_dom sampleDocument (sampleTensor4D 5)
     = ATensor (mkTensor 8 [5; 10; 10; 3])
   ∧ length (shape (mkTensor 8 [5; 10; 10; 3])) = 4
   ∧ toNetInput (resolveInput_dom sampleDocument) loaded
       (InArray [sampleImage; sampleTensor4D 5]) false world0
     = (world0, inl "toNetInput - at input index 1: tf.Tensor4D with batchSize 5 passed, but not supported in input array"))
  ∧ (shape (mkTensor 8 [1; 10; 10; 3]) !! 0 = Some 1
     ∧ validInput (resolveInput_dom sampleDocument) loaded
         (InArray [sampleImage; sampleTensor4D 1]) = true
     ∧ ∃ items,
         toNetInput (resolveInput_dom sampleDocument) loaded
           (InArray [sampleImage; sampleTensor4D 1]) false world0
         = (mkWorld (heap world0 ++ [mkNetInput (OfArray items) true false])
                    (awaited world0 ++ mediaOf items),
            inr (length (heap world0)))
         ∧ length items = 2
         ∧ items !! 1 = Some (ATensor (mkTensor 8 [10; 10; 3]))).
Proof.
  split.
  - split_and!; [reflexivity..|].
    refine (proj1 (toNetInput_array_Tensor4D (resolveInput_dom sampleDocument) loaded
                     [sampleImage; sampleTensor4D 5] 1 (sampleTensor4D 5)
                     (mkTensor 8 [5; 10; 10; 3]) false world0 eq_refl eq_refl eq_refl)
              _ _).
    + discriminate.
    + intros [|[|j]] b Hj Hb; [|lia..]. injection Hb as <-. reflexivity.
  - split_and!; [reflexivity..|].
    exact (proj2 (proj2 (proj1 (proj2
             (toNetInput_array_Tensor4D (resolveInput_dom sampleDocument) loaded
                [sampleImage; sampleTensor4D 1] 1 (sampleTensor4D 1)
                (mkTensor 8 [1; 10; 10; 3]) false world0 eq_refl eq_refl eq_refl))
             eq_refl)) eq_refl).
Defined.

(** Counterexample to C5 as stated: the element at index 0 resolves to
    neither a media element nor a 3D tensor, yet the call fails with the
    batch-size error of index 1, not with a type error. *)
Lemma toNetInput_batch_error_before_type_error :
  accepted (resolveInput_dom sampleDocument AOther) = false
  ∧ toNetInput (resolveInput_dom sampleDocument) loaded
      (InArray [AOther; sampleTensor4D 3]) false world0
    = (world0, inl "toNetInput - at input index 1: tf.Tensor4D with batchSize 3 passed, but not supported in input array")
  ∧ toNetInput (resolveInput_dom sampleDocument) loaded
      (InArray [AOther; sampleTensor4D 3]) false world0
    ≠ (world0, inl (unsupportedTypeError " at input index 0:")).
Proof. split_and!; [reflexivity..|]. vm_compute. discriminate. Qed.

(** Witness of C5: an unknown element id at index 1 of an array. *)
Lemma toNetInput_type_error_first_witness :
  perItem (resolveInput_dom sampleDocument) (InArray [sampleImage; AString "nope"]) !! 1
  = Some AOther
  ∧ accepted AOther = false
  ∧ toNetInput (resolveInput_dom sampleDocument) loaded
      (InArray [sampleImage; AString "nope"]) false world0
    = (world0, inl "toNetInput - at input index 1: string passed, but could not resolve HTMLElement for element id nope").
Proof.
  split_and!; [reflexivity..|].
  apply (toNetInput_type_error_first (resolveInput_dom sampleDocument) loaded
           (InArray [sampleImage; AString "nope"]) 1 AOther false world0);
    try reflexivity.
  - intros b Hb. cbn in Hb.
    apply elem_of_cons in Hb as [->|Hb]; [reflexivity|].
    apply elem_of_cons in Hb as [->|Hb]; [reflexivity|].
    by apply elem_of_nil in Hb.
  - intros [|[|j]] b Hj Hb; [|lia..]. injection Hb as <-. reflexivity.
Defined.

End InputCoercionProofs.

(** * Properties of [allFacesFactory] *)

Module PipelineProofs.
Import Pipeline ArrayFacts.

(** ** The engine operations *)

Lemma cropsFrom_cons h0 input b boxes :
  cropsFrom h0 input (b :: boxes)
  = mkFaceTensor h0 input b :: cropsFrom (S h0) input boxes.
Proof.
  unfold cropsFrom. cbn. rewrite Nat.add_0_r. f_equal.
  apply imap_ext. intros i x _. cbn. f_equal. lia.
Qed.

Lemma cropsFrom_handles h0 input boxes :
  handle <$> cropsFrom h0 input boxes = seq h0 (length boxes).
Proof.
  revert h0. induction boxes as [|b boxes IH]; intros h0; [done|].
  rewrite cropsFrom_cons. cbn. by rewrite IH.
Qed.

Lemma cropsFrom_length h0 input boxes :
  length (cropsFrom h0 input boxes) = length boxes.
Proof. unfold cropsFrom. by rewrite length_imap. Qed.

Lemma cropsFrom_lookup h0 input boxes i b :
  boxes !! i = Some b →
  cropsFrom h0 input boxes !! i = Some (mkFaceTensor (h0 + i) input b).
Proof. intros H. unfold cropsFrom. by rewrite list_lookup_imap, H. Qed.

Lemma cropAll_spec input boxes s :
  cropAll input boxes s
  = (allocated (length boxes) s, inr (cropsFrom (nextId s) input boxes)).
Proof.
  revert s. induction boxes as [|b boxes IH]; intros s.
  - unfold allocated. destruct s as [n l t]. cbn. unfold mret, M_ret.
    by rewrite Nat.add_0_r, app_nil_r, (left_id_L ∅ (∪)).
  - rewrite cropsFrom_cons. cbn [cropAll length].
    unfold mbind, M_bind, tf_alloc. rewrite IH.
    unfold allocated, mret, M_ret. cbn [nextId live trace seq fmap list_fmap].
    rewrite <- app_assoc. cbn [app]. do 2 f_equal; [lia|set_solver].
Qed.

Lemma forEach_dispose_spec ts s :
  forEach_dispose ts s = (disposed (handle <$> ts) s, inr tt).
Proof.
  revert s. induction ts as [|t ts IH]; intros s.
  - unfold disposed. destruct s as [n l tr]. cbn. unfold mret, M_ret.
    rewrite app_nil_r. do 2 f_equal. set_solver.
  - cbn [forEach_dispose]. unfold mbind, M_bind, dispose. rewrite IH.
    unfold disposed. cbn [nextId live trace fmap list_fmap].
    rewrite <- app_assoc. cbn [app]. do 2 f_equal. set_solver.
Qed.

Lemma Promise_all_inv {A} (promises : list (Rejection + A)) results :
  Promise_all promises = inr results → promises = inr <$> results.
Proof.
  unfold Promise_all.
  destruct (earliest _) as [r|] eqn:He; [done|]. apply earliest_None in He.
  intros [= <-]. induction promises as [|[r|a] ps IH]; [done|done|].
  cbn. f_equal. by apply IH.
Qed.

(** A [map] whose callback reads the same index of a second array and
    throws when that slot is [undefined]. *)
Lemma Array_map_from_zip {A B C} (g : A → B → C) (bs : list B) (e : Error) i (l : list A) :
  (i ≤ length bs)%nat →
  Array_map_from (λ a k, match bs !! k with Some b => inr (g a b) | None => inl e end) i l
  = if decide (i + length l ≤ length bs)%nat then inr (zip_with g l (drop i bs)) else inl e.
Proof.
  revert i. induction l as [|a l IH]; intros i Hi; cbn.
  - case_decide; [|lia]. by destruct (drop i bs).
  - destruct (bs !! i) as [b|] eqn:Hb.
    + pose proof (lookup_lt_Some _ _ _ Hb).
      rewrite IH by lia. rewrite (drop_S _ _ _ Hb).
      repeat case_decide; try lia; done.
    + apply lookup_ge_None in Hb. case_decide; [lia|done].
Qed.

(** ** Counting allocations and releases in a trace *)

Lemma allocations_app evs evs' :
  allocations (evs ++ evs') = allocations evs ++ allocations evs'.
Proof. apply omap_app. Qed.

Lemma releases_app evs evs' :
  releases (evs ++ evs') = releases evs ++ releases evs'.
Proof. apply omap_app. Qed.

Lemma allocations_alloc hs : allocations (EvAlloc <$> hs) = hs.
Proof. induction hs as [|h hs IH]; [done|]. cbn. f_equal. exact IH. Qed.

Lemma allocations_dispose hs : allocations (EvDispose <$> hs) = [].
Proof. by induction hs. Qed.

Lemma allocations_compute hs : allocations (EvComputeFaceDescriptor <$> hs) = [].
Proof. by induction hs. Qed.

Lemma releases_alloc hs : releases (EvAlloc <$> hs) = [].
Proof. by induction hs. Qed.

Lemma releases_dispose hs : releases (EvDispose <$> hs) = hs.
Proof. induction hs as [|h hs IH]; [done|]. cbn. f_equal. exact IH. Qed.

Lemma releases_compute hs : releases (EvComputeFaceDescriptor <$> hs) = [].
Proof. by induction hs. Qed.

(** ** The detector the spec describes *)

Lemma insertByScore_Forall (P : FaceDetection → Prop) d sorted :
  P d → Forall P sorted → Forall P (insertByScore d sorted).
Proof.
  intros Hd. induction 1 as [|d' rest Hd' Hrest IH]; cbn.
  - by repeat constructor.
  - destruct (Qle_bool (score d') (score d)); repeat constructor; done.
Qed.

Lemma insertByScore_sorted d sorted :
  StronglySorted byScore sorted → StronglySorted byScore (insertByScore d sorted).
Proof.
  induction 1 as [|d' rest Hrest IH Hall]; cbn.
  - by repeat constructor.
  - destruct (Qle_bool (score d') (score d)) eqn:Hle.
    + apply Qle_bool_iff in Hle. constructor; [by constructor|].
      constructor; [done|].
      eapply Forall_impl; [exact Hall|]. intros b Hb. unfold byScore in *.
      by apply Qle_trans with (score d').
    + constructor; [done|]. apply insertByScore_Forall; [|done].
      unfold byScore. apply Qlt_le_weak, Qnot_le_lt.
      intros Hle'%Qle_bool_iff. congruence.
Qed.

Lemma sortByScore_sorted ds : StronglySorted byScore (sortByScore ds).
Proof.
  induction ds as [|d ds IH]; cbn; [constructor|]. by apply insertByScore_sorted.
Qed.

(** Detections of equal confidence keep their input order. *)
Lemma insertByScore_filter q d sorted :
  List.filter (λ d, Qeq_bool (score d) q) (insertByScore d sorted)
  = List.filter (λ d, Qeq_bool (score d) q) (d :: sorted).
Proof.
  induction sorted as [|d' rest IH]; [done|]. cbn [insertByScore].
  destruct (Qle_bool (score d') (score d)) eqn:Hle; [done|].
  cbn [List.filter] in *. rewrite IH.
  destruct (Qeq_bool (score d') q) eqn:Hd', (Qeq_bool (score d) q) eqn:Hd; try done.
  apply Qeq_bool_iff in Hd', Hd.
  assert (Qle_bool (score d') (score d) = true); [|congruence].
  apply Qle_bool_iff. rewrite Hd', Hd. apply Qle_refl.
Qed.

Lemma sortByScore_stable q ds :
  List.filter (λ d, Qeq_bool (score d) q) (sortByScore ds)
  = List.filter (λ d, Qeq_bool (score d) q) ds.
Proof.
  induction ds as [|d ds IH]; [done|].
  cbn [sortByScore foldr]. rewrite insertByScore_filter.
  cbn [List.filter]. fold (sortByScore ds). by rewrite IH.
Qed.

Section Run.
Variable align : FaceLandmarks → Rect → Rect.
Variable shiftByPoint : FaceLandmarks → Rect → FaceLandmarks.
Variable cropError : TNetInput → list Rect → option (nat * Error).
Variable detectionNet : FaceDetectionNet.
Variable landmarkNet : FaceLandmarkNet.
Variable recognitionNet : FaceRecognitionNet.
Variable input : TNetInput.
Variable minConfidence : Q.

Local Abbreviation allFaces :=
  (allFacesFactory align shiftByPoint cropError detectionNet landmarkNet recognitionNet
     input minConfidence).

(** The pipeline with the engine made explicit: where it can stop, and
    in which engine state. *)
Lemma allFaces_run (s : Engine) :
  allFaces s
  = let s1 := recorded [EvLocateFaces] s in
    match locateFaces detectionNet input minConfidence None with
    | inl e => (s1, inl e)
    | inr detections =>
        match cropError input (getBox <$> detections) with
        | Some (leftover, e) => (allocated leftover s1, inl e)
        | None =>
            let n := length detections in
            let raw := seq (nextId s) n in
            let s2 := recorded [EvDetectLandmarks raw] (allocated n s1) in
            match detectLandmarks landmarkNet
                    (cropsFrom (nextId s) input (getBox <$> detections)) with
            | inl e => (s2, inl e)
            | inr faceLandmarksByFace =>
                let s3 := disposed raw s2 in
                if decide (length faceLandmarksByFace ≤ n)%nat then
                  let boxes := zip_with align faceLandmarksByFace (getBox <$> detections) in
                  match cropError input boxes with
                  | Some (leftover, e) => (allocated leftover s3, inl e)
                  | None =>
                      let aligned := seq (nextId s + n) (length boxes) in
                      let s4 := recorded (EvComputeFaceDescriptor <$> aligned)
                                         (allocated (length boxes) s3) in
                      match Promise_all (computeFaceDescriptor recognitionNet
                                           <$> cropsFrom (nextId s + n) input boxes) with
                      | inl e => (s4, inl e)
                      | inr descriptors =>
                          (disposed aligned s4,
                           Array_map
                             (λ detection i,
                                match faceLandmarksByFace !! i with
                                | Some l =>
                                    inr (mkFullFaceDescription detection
                                           (shiftByPoint l (getBox detection))
                                           (descriptors !! i))
                                | None => inl (TypeError "shiftByPoint")
                                end)
                             detections)
                      end
                  end
                else (s3, inl (TypeError "getBox"))
            end
        end
    end.
Proof.
  unfold allFacesFactory. unfold mbind at 1. unfold M_bind at 1. unfold await at 1.
  cbn zeta. fold (recorded [EvLocateFaces] s).
  destruct (locateFaces detectionNet input minConfidence None) as [e|detections]; [done|].
  unfold mbind at 1. unfold M_bind at 1. unfold extractFaceTensors at 1.
  destruct (cropError input (getBox <$> detections)) as [[leftover e]|]; [done|].
  rewrite cropAll_spec.
  unfold mbind at 1. unfold M_bind at 1. unfold await at 1.
  rewrite cropsFrom_handles, length_fmap.
  change (nextId (recorded [EvLocateFaces] s)) with (nextId s).
  fold (recorded [EvDetectLandmarks (seq (nextId s) (length detections))]
          (allocated (length detections) (recorded [EvLocateFaces] s))).
  destruct (detectLandmarks landmarkNet _) as [e|faceLandmarksByFace]; [done|].
  unfold mbind at 1. unfold M_bind at 1.
  rewrite forEach_dispose_spec, cropsFrom_handles, length_fmap.
  unfold mbind at 1. unfold M_bind at 1. unfold liftE at 1.
  unfold Array_map at 1.
  rewrite (Array_map_from_zip (λ l d, align l (getBox d)) detections) by lia.
  rewrite drop_0, Nat.add_0_l.
  case_decide; [|done].
  rewrite <- zip_with_fmap_r.
  unfold mbind at 1. unfold M_bind at 1. unfold extractFaceTensors at 1.
  destruct (cropError input _) as [[leftover e]|]; [done|].
  rewrite cropAll_spec.
  unfold mbind at 1. unfold M_bind at 1. unfold awaitDescriptors at 1.
  rewrite list_fmap_compose, cropsFrom_handles.
  cbn [nextId allocated disposed recorded].
  destruct (Promise_all _) as [e|descriptors]; [done|].
  unfold mbind at 1. unfold M_bind at 1.
  rewrite forEach_dispose_spec, cropsFrom_handles.
  unfold liftE. done.
Qed.

(** The last [map], which reads the landmarks and the descriptor of
    the same index. *)
Lemma assemble_inv (detections : list FaceDetection) (lms : list FaceLandmarks)
    (descriptors : list Descriptor) res :
  Array_map
    (λ detection i,
       match lms !! i with
       | Some l =>
           inr (mkFullFaceDescription detection (shiftByPoint l (getBox detection))
                  (descriptors !! i))
       | None => inl (TypeError "shiftByPoint")
       end) detections = inr res →
  length res = length detections
  ∧ (length detections ≤ length lms)%nat
  ∧ ∀ i d, detections !! i = Some d →
      ∃ l, lms !! i = Some l
           ∧ res !! i = Some (mkFullFaceDescription d (shiftByPoint l (getBox d))
                                (descriptors !! i)).
Proof.
  intros [Hlen Hall]%Array_map_from_inv. split; [done|]. split.
  - destruct (decide (length detections ≤ length lms)%nat) as [|Hgt]; [done|].
    destruct (lookup_lt_is_Some_2 detections (length lms) ltac:(lia)) as [d Hd].
    destruct (Hall _ _ Hd) as (y & Hy & _). cbn in Hy.
    by rewrite (lookup_ge_None_2 lms (length lms)) in Hy.
  - intros i d Hd. destruct (Hall _ _ Hd) as (y & Hy & Hres). cbn in Hy.
    destruct (lms !! i) as [l|]; [|done]. injection Hy as <-. by exists l.
Qed.

Lemma assemble_total (detections : list FaceDetection) (lms : list FaceLandmarks)
    (descriptors : list Descriptor) :
  (length detections ≤ length lms)%nat →
  ∃ res,
    Array_map
      (λ detection i,
         match lms !! i with
         | Some l =>
             inr (mkFullFaceDescription detection (shiftByPoint l (getBox detection))
                    (descriptors !! i))
         | None => inl (TypeError "shiftByPoint")
         end) detections = inr res.
Proof.
  intros Hlen. apply Array_map_from_total. intros k d Hd. cbn.
  pose proof (lookup_lt_Some _ _ _ Hd).
  destruct (lookup_lt_is_Some_2 lms k ltac:(lia)) as [l ->]. by eexists.
Qed.

(** The descriptor of index [i] is the recognizer's answer on the crop
    of index [i]. *)
Lemma descriptor_of_crop h0 (boxes : list Rect) (descriptors : list Descriptor) i b :
  Promise_all (computeFaceDescriptor recognitionNet <$> cropsFrom h0 input boxes)
  = inr descriptors →
  boxes !! i = Some b →
  ∃ desc, descriptors !! i = Some desc
          ∧ computeFaceDescriptor recognitionNet (mkFaceTensor (h0 + i) input b) = inr desc.
Proof.
  intros Hall%Promise_all_inv Hb.
  apply (f_equal (.!! i)) in Hall.
  rewrite !list_lookup_fmap, (cropsFrom_lookup _ _ _ _ _ Hb) in Hall. cbn in Hall.
  destruct (descriptors !! i) as [desc|]; [|done].
  injection Hall as Hall. by exists desc.
Qed.

(** C1: when every stage succeeds (the detector, both croppings, the
    landmark network with one landmark set per crop, the recognizer on
    every aligned crop), the pipeline returns one [FullFaceDescription]
    per detection, in the detector's order, and the one at index [i]
    holds detection [i], the landmarks of index [i] shifted by the box
    of detection [i], and the descriptor the recognizer computed from
    the crop of index [i], cut along the box aligned from landmarks [i]
    and the box of detection [i]. *)
Theorem allFaces_index_aligned
    (s : Engine) (detections : list FaceDetection)
    (faceLandmarksByFace : list FaceLandmarks) (descriptors : list Descriptor) :
  locateFaces detectionNet input minConfidence None = inr detections →
  cropError input (getBox <$> detections) = None →
  detectLandmarks landmarkNet (cropsFrom (nextId s) input (getBox <$> detections))
  = inr faceLandmarksByFace →
  length faceLandmarksByFace = length detections →
  cropError input (zip_with align faceLandmarksByFace (getBox <$> detections)) = None →
  Promise_all
    (computeFaceDescriptor recognitionNet
       <$> cropsFrom (nextId s + length detections) input
             (zip_with align faceLandmarksByFace (getBox <$> detections)))
  = inr descriptors →
  ∃ s' res,
    allFaces s = (s', inr res)
    ∧ length res = length detections
    ∧ ∀ i d, detections !! i = Some d →
        ∃ l desc,
          faceLandmarksByFace !! i = Some l
          ∧ computeFaceDescriptor recognitionNet
              (mkFaceTensor (nextId s + length detections + i) input (align l (getBox d)))
            = inr desc
          ∧ res !! i = Some (mkFullFaceDescription d (shiftByPoint l (getBox d)) (Some desc)).
Proof.
  intros Hdet Hcrop Hlm Hlen Hcrop' Hdesc.
  destruct (assemble_total detections faceLandmarksByFace descriptors ltac:(lia))
    as [res Hres].
  rewrite allFaces_run. cbn zeta. rewrite Hdet, Hcrop, Hlm.
  rewrite decide_True by lia. rewrite Hcrop', Hdesc, Hres.
  eexists _, res. split; [done|].
  destruct (assemble_inv _ _ _ _ Hres) as (Hlenres & _ & Hall).
  split; [done|]. intros i d Hd.
  destruct (Hall i d Hd) as (l & Hl & Hi). exists l.
  destruct (descriptor_of_crop _ _ _ i (align l (getBox d)) Hdesc) as (desc & Hdi & Hc).
  { by rewrite lookup_zip_with, Hl, list_lookup_fmap, Hd. }
  exists desc. by rewrite Hi, Hdi.
Qed.

(** What a return of the pipeline tells about the run. *)
Lemma allFaces_returns_inv (s s' : Engine) res :
  allFaces s = (s', inr res) →
  locateFaces detectionNet input minConfidence None = inr (detection <$> res)
  ∧ s' = (let n := length res in
          let raw := seq (nextId s) n in
          let aligned := seq (nextId s + n) n in
          disposed aligned
            (recorded (EvComputeFaceDescriptor <$> aligned)
               (allocated n
                  (disposed raw
                     (recorded [EvDetectLandmarks raw]
                        (allocated n (recorded [EvLocateFaces] s))))))).
Proof.
  rewrite allFaces_run. cbn zeta.
  destruct (locateFaces detectionNet input minConfidence None) as [e|detections]; [done|].
  destruct (cropError input (getBox <$> detections)) as [[leftover e]|]; [done|].
  destruct (detectLandmarks landmarkNet _) as [e|lms]; [done|].
  case_decide as Hle; [|done].
  destruct (cropError input _) as [[leftover e]|]; [done|].
  destruct (Promise_all _) as [e|descriptors]; [done|].
  intros [= <- (Hlen & Hge & Hall)%assemble_inv].
  rewrite length_zip_with, length_fmap, Nat.min_l by lia.
  assert (length lms = length detections) as -> by lia. rewrite Hlen.
  split; [|done]. f_equal.
  apply list_eq. intros i. rewrite list_lookup_fmap.
  destruct (detections !! i) as [d|] eqn:Hd.
  - destruct (Hall i d Hd) as (l & _ & ->). done.
  - apply lookup_ge_None in Hd. by rewrite (lookup_ge_None_2 res i) by lia.
Qed.

(** C2 (amended): the function the factory returns takes [input] and
    [minConfidence] only.  A [maxResults] passed as third argument
    changes nothing, the detector is called with [maxResults] left out,
    and the list returned carries exactly the detections of that
    detector call, in the detector's order and uncut.  With a detector
    as the spec describes it, that order is descending confidence, and
    detections of equal confidence keep their input order. *)
Theorem allFaces_call_without_maxResults (maxResults : option nat) (s : Engine) :
  allFaces_call align shiftByPoint cropError detectionNet landmarkNet recognitionNet
    input minConfidence maxResults s
  = allFaces_call align shiftByPoint cropError detectionNet landmarkNet recognitionNet
      input minConfidence None s
  ∧ ∀ s' res,
      allFaces_call align shiftByPoint cropError detectionNet landmarkNet recognitionNet
        input minConfidence maxResults s = (s', inr res) →
      locateFaces detectionNet input minConfidence None = inr (detection <$> res)
      ∧ ∀ found,
          locateFaces detectionNet = locateFaces_spec found →
          StronglySorted byScore (detection <$> res)
          ∧ ∀ q,
              List.filter (λ d, Qeq_bool (score d) q) (detection <$> res)
              = List.filter (λ d, Qeq_bool (score d) q)
                  (List.filter (λ d, Qle_bool minConfidence (score d)) (found input)).
Proof.
  split; [done|]. intros s' res Hrun.
  destruct (allFaces_returns_inv s s' res Hrun) as [Hdet _].
  split; [done|]. intros found Hspec. rewrite Hspec in Hdet.
  injection Hdet as <-. split.
  - apply sortByScore_sorted.
  - intros q. apply sortByScore_stable.
Qed.

(** C8: after a call that returns, the events of the call are, in this
    order: the detector call, the allocation of the raw crops, the
    landmark call on them, their disposal, the allocation of the
    aligned crops, the recognizer calls on them, their disposal.  So the
    handles released are the handles allocated, each once, and none of
    them is still allocated. *)
Theorem allFaces_releases_crops (s s' : Engine) res :
  allFaces s = (s', inr res) →
  let n := length res in
  let raw := seq (nextId s) n in
  let aligned := seq (nextId s + n) n in
  eventsSince s s'
  = [EvLocateFaces] ++ (EvAlloc <$> raw) ++ [EvDetectLandmarks raw] ++ (EvDispose <$> raw)
    ++ (EvAlloc <$> aligned) ++ (EvComputeFaceDescriptor <$> aligned)
    ++ (EvDispose <$> aligned)
  ∧ allocations (eventsSince s s') = raw ++ aligned
  ∧ releases (eventsSince s s') = raw ++ aligned
  ∧ NoDup (raw ++ aligned)
  ∧ live s' ⊆ live s
  ∧ ∀ h, h ∈ raw ++ aligned → h ∉ live s'.
Proof.
  intros [_ ->]%allFaces_returns_inv. cbn zeta.
  set (n := length res). set (raw := seq (nextId s) n).
  set (aligned := seq (nextId s + n) n).
  assert (eventsSince s
            (disposed aligned
               (recorded (EvComputeFaceDescriptor <$> aligned)
                  (allocated n
                     (disposed raw
                        (recorded [EvDetectLandmarks raw]
                           (allocated n (recorded [EvLocateFaces] s)))))))
          = [EvLocateFaces] ++ (EvAlloc <$> raw) ++ [EvDetectLandmarks raw]
            ++ (EvDispose <$> raw) ++ (EvAlloc <$> aligned)
            ++ (EvComputeFaceDescriptor <$> aligned) ++ (EvDispose <$> aligned)) as Hev.
  { unfold eventsSince. cbn [trace disposed recorded allocated nextId].
    fold raw. fold aligned. rewrite <- !app_assoc. apply drop_app_length. }
  rewrite Hev. split; [done|]. split_and!.
  - rewrite !allocations_app, !allocations_alloc, !allocations_dispose,
      allocations_compute. cbn. by rewrite app_nil_r.
  - rewrite !releases_app, !releases_alloc, !releases_dispose, releases_compute.
    cbn. done.
  - unfold raw, aligned. rewrite <- seq_app. apply NoDup_seq.
  - cbn [live disposed recorded allocated nextId]. set_solver.
  - cbn [live disposed recorded allocated nextId]. fold raw. fold aligned.
    set_solver.
Qed.

(** C9: when the landmark network rejects after the raw crops were
    cut, the call is rejected with that error and the raw crops stay
    allocated: every one of them was allocated during the call, none was
    released. *)
Theorem allFaces_leaks_raw_crops (s : Engine) (detections : list FaceDetection) (e : Error) :
  locateFaces detectionNet input minConfidence None = inr detections →
  cropError input (getBox <$> detections) = None →
  detectLandmarks landmarkNet (cropsFrom (nextId s) input (getBox <$> detections)) = inl e →
  ∃ s',
    allFaces s = (s', inl e)
    ∧ allocations (eventsSince s s') = seq (nextId s) (length detections)
    ∧ releases (eventsSince s s') = []
    ∧ ∀ h, h ∈ seq (nextId s) (length detections) → h ∈ live s'.
Proof.
  intros Hdet Hcrop Hlm. rewrite allFaces_run. cbn zeta. rewrite Hdet, Hcrop, Hlm.
  eexists. split; [done|].
  unfold eventsSince. cbn [trace disposed recorded allocated nextId live].
  rewrite <- !app_assoc, drop_app_length.
  split_and!.
  - rewrite !allocations_app, allocations_alloc. cbn. by rewrite app_nil_r.
  - by rewrite !releases_app, releases_alloc.
  - set_solver.
Qed.

End Run.

(** Witness of C1: the sample pipeline on two detected faces. *)
Lemma allFaces_index_aligned_witness :
  locateFaces sampleDetectionNet sampleInput (1 # 2) None = inr sampleDetections
  ∧ detectLandmarks sampleLandmarkNet
      (cropsFrom 0 sampleInput (getBox <$> sampleDetections)) = inr sampleLandmarks
  ∧ length sampleLandmarks = length sampleDetections
  ∧ (∃ s' res,
       allFacesFactory sampleAlign sampleShift noCropError
         sampleDetectionNet sampleLandmarkNet sampleRecognitionNet
         sampleInput (1 # 2) engine0 = (s', inr res)
       ∧ length res = 2
       ∧ ∀ i d, sampleDetections !! i = Some d →
           ∃ l desc,
             sampleLandmarks !! i = Some l
             ∧ computeFaceDescriptor sampleRecognitionNet
                 (mkFaceTensor (0 + 2 + i) sampleInput (sampleAlign l (getBox d)))
               = inr desc
             ∧ res !! i = Some (mkFullFaceDescription d (sampleShift l (getBox d))
                                  (Some desc))).
Proof.
  split_and!; [reflexivity..|].
  apply (allFaces_index_aligned sampleAlign sampleShift noCropError
           sampleDetectionNet sampleLandmarkNet sampleRecognitionNet
           sampleInput (1 # 2) engine0 sampleDetections sampleLandmarks
           sampleDescriptors); reflexivity.
Defined.

(** Counterexample to C2 as stated: the detector caps its list at
    [maxResults] when it is given one, but the pipeline called with
    [maxResults = 1] returns two descriptions. *)
Lemma allFaces_call_not_truncated :
  locateFaces sampleDetectionNet sampleInput (1 # 2) (Some 1)
  = inr [mkFaceDetection (8 # 10) (mkRect 50 60 30 40)]
  ∧ (allFaces_call sampleAlign sampleShift noCropError
       sampleDetectionNet sampleLandmarkNet sampleRecognitionNet
       sampleInput (1 # 2) (Some 1) engine0).2 = inr sampleResult
  ∧ length sampleResult = 2
  ∧ ¬ (length sampleResult ≤ 1)%nat.
Proof. split_and!; [reflexivity..|]. cbn. lia. Qed.

(** Witness of C2: the same call, whose detections are the detector's
    for a call without [maxResults]. *)
Lemma allFaces_call_without_maxResults_witness :
  (allFaces_call sampleAlign sampleShift noCropError
     sampleDetectionNet sampleLandmarkNet sampleRecognitionNet
     sampleInput (1 # 2) (Some 1) engine0).2 = inr sampleResult
  ∧ locateFaces sampleDetectionNet sampleInput (1 # 2) None
    = inr (detection <$> sampleResult)
  ∧ StronglySorted byScore (detection <$> sampleResult).
Proof.
  split; [reflexivity|].
  destruct (proj2 (allFaces_call_without_maxResults sampleAlign sampleShift noCropError
                     sampleDetectionNet sampleLandmarkNet sampleRecognitionNet
                     sampleInput (1 # 2) (Some 1) engine0)
              (allFaces_call sampleAlign sampleShift noCropError
                 sampleDetectionNet sampleLandmarkNet sampleRecognitionNet
                 sampleInput (1 # 2) (Some 1) engine0).1
              sampleResult) as [Hdet Hsorted].
  - vm_compute. reflexivity.
  - split; [exact Hdet|]. exact (proj1 (Hsorted sampleFaces eq_refl)).
Defined.

(** Witness of C8: the sample pipeline allocates and releases the
    handles 0 to 3. *)
Lemma allFaces_releases_crops_witness :
  (allFacesFactory sampleAlign sampleShift noCropError
     sampleDetectionNet sampleLandmarkNet sampleRecognitionNet
     sampleInput (1 # 2) engine0).2 = inr sampleResult
  ∧ ∀ s', s' = (allFacesFactory sampleAlign sampleShift noCropError
                  sampleDetectionNet sampleLandmarkNet sampleRecognitionNet
                  sampleInput (1 # 2) engine0).1 →
      allocations (eventsSince engine0 s') = [0; 1; 2; 3]
      ∧ releases (eventsSince engine0 s') = [0; 1; 2; 3]
      ∧ live s' ⊆ live engine0.
Proof.
  split; [reflexivity|]. intros s' ->.
  destruct (allFaces_releases_crops sampleAlign sampleShift noCropError
              sampleDetectionNet sampleLandmarkNet sampleRecognitionNet
              sampleInput (1 # 2) engine0
              (allFacesFactory sampleAlign sampleShift noCropError
                 sampleDetectionNet sampleLandmarkNet sampleRecognitionNet
                 sampleInput (1 # 2) engine0).1
              sampleResult) as (_ & Halloc & Hrel & _ & Hlive & _).
  - vm_compute. reflexivity.
  - split_and!; [exact Halloc|exact Hrel|exact Hlive].
Defined.

(** Witness of C9: the landmark network rejects after two raw crops
    were cut; the handles 0 and 1 stay allocated. *)
Lemma allFaces_leaks_raw_crops_witness :
  locateFaces sampleDetectionNet sampleInput (1 # 2) None = inr sampleDetections
  ∧ detectLandmarks failingLandmarkNet
      (cropsFrom 0 sampleInput (getBox <$> sampleDetections)) = inl "landmark net failed"
  ∧ ∃ s',
      allFacesFactory sampleAlign sampleShift noCropError
        sampleDetectionNet failingLandmarkNet sampleRecognitionNet
        sampleInput (1 # 2) engine0 = (s', inl "landmark net failed")
      ∧ allocations (eventsSince engine0 s') = [0; 1]
      ∧ releases (eventsSince engine0 s') = []
      ∧ ∀ h, h ∈ [0; 1] → h ∈ live s'.
Proof.
  split_and!; [reflexivity..|].
  apply (allFaces_leaks_raw_crops sampleAlign sampleShift noCropError
           sampleDetectionNet failingLandmarkNet sampleRecognitionNet
           sampleInput (1 # 2) engine0 sampleDetections "landmark net failed");
    reflexivity.
Defined.

End PipelineProofs.

(** * More on [toNetInput]: how every call ends *)

Module InputCoercionExtra.
Import InputCoercion ArrayFacts InputCoercionProofs.

Section Outcomes.
Variable resolveInput : TNetInputArg → TNetInputArg.
Variable awaitMediaLoaded : Media → option Rejection.

Local Abbreviation toNetInput := (toNetInput resolveInput awaitMediaLoaded).
Local Abbreviation perItem := (perItem resolveInput).

(** The per-item path with its four exits, in the order the code
    reaches them. *)
Lemma toNetInput_run inputs m w :
  instanceof_NetInput inputs = None →
  input_Tensor4D inputs = None →
  toNetInput inputs m w
  = if bool_decide (inputArgArray inputs = []) then (w, inl emptyInputError)
    else
      match list_find (λ a, badBatch a = true) (resolveInput <$> inputArgArray inputs) with
      | Some (k, a) =>
          (w, inl (invalidBatchSizeError (idxHint (Array_isArray inputs) k) (batchSizeOf a)))
      | None =>
          match list_find (λ a, accepted a = false) (perItem inputs) with
          | Some (k, _) => (w, inl (typeError inputs k))
          | None =>
              match earliest (omap awaitMediaLoaded (mediaOf (perItem inputs))) with
              | Some r =>
                  (mkWorld (heap w) (awaited w ++ mediaOf (perItem inputs)), inl r.2)
              | None =>
                  (mkWorld (heap w ++ [mkNetInput (OfArray (perItem inputs))
                                         (Array_isArray inputs) m])
                           (awaited w ++ mediaOf (perItem inputs)),
                   inr (length (heap w)))
              end
          end
      end.
Proof.
  intros H1 H2. case_bool_decide as Hnil.
  { unfold InputCoercion.toNetInput. rewrite H1, H2, Hnil. done. }
  destruct (list_find (λ a, badBatch a = true) _) as [[k a]|] eqn:Hbatch.
  { by apply toNetInput_batch_error. }
  destruct (list_find (λ a, accepted a = false) _) as [[k a]|] eqn:Htype.
  { by apply (toNetInput_type_error _ _ _ _ _ _ a). }
  destruct (earliest _) as [r|] eqn:Hload.
  2: { apply earliest_None in Hload. by apply toNetInput_created. }
  rewrite toNetInput_items by done.
  unfold mbind at 1 2 3. unfold M_bind, liftE.
  rewrite (batch_pass_ok _ _ Hbatch), (type_pass_ok _ _ Htype).
  unfold awaitAll. by rewrite Hload.
Qed.

(** [validInput] on the per-item path, in terms of the searches. *)
Lemma validInput_items inputs :
  instanceof_NetInput inputs = None →
  input_Tensor4D inputs = None →
  validInput resolveInput awaitMediaLoaded inputs = true
  ↔ inputArgArray inputs ≠ []
    ∧ list_find (λ a, badBatch a = true) (resolveInput <$> inputArgArray inputs) = None
    ∧ list_find (λ a, accepted a = false) (perItem inputs) = None
    ∧ omap awaitMediaLoaded (mediaOf (perItem inputs)) = [].
Proof.
  intros H1 H2. unfold validInput. rewrite H1, H2. split.
  - intros [[[Hlen Hbatch]%andb_true_iff Htype]%andb_true_iff Hload]%andb_true_iff.
    apply negb_true_iff, Nat.eqb_neq in Hlen. split_and!.
    + by destruct (inputArgArray inputs).
    + rewrite list_find_fmap. apply fmap_None, list_find_None, Forall_forall.
      intros x Hx%list_elem_of_In. cbn.
      rewrite forallb_forall in Hbatch. specialize (Hbatch x Hx).
      by destruct (badBatch (resolveInput x)).
    + by apply forallb_accepted_find.
    + by apply forallb_loaded.
  - intros (Hne & Hbatch & Htype & Hload).
    rewrite !andb_true_iff. split_and!.
    + apply negb_true_iff, Nat.eqb_neq. by destruct (inputArgArray inputs).
    + apply forallb_forall. intros x Hx%list_elem_of_In.
      apply list_find_None in Hbatch. rewrite Forall_forall in Hbatch.
      specialize (Hbatch (resolveInput x) (list_elem_of_fmap_2 _ _ _ Hx)).
      by destruct (badBatch (resolveInput x)).
    + apply forallb_forall. intros x Hx%list_elem_of_In.
      apply list_find_None in Htype. rewrite Forall_forall in Htype.
      specialize (Htype x Hx). by destruct (accepted x).
    + revert Hload. generalize (mediaOf (perItem inputs)).
      induction l as [|md l IH]; [done|]. cbn.
      destruct (awaitMediaLoaded md) eqn:Hmd; [done|].
      intros Hl. rewrite bool_decide_eq_true_2 by done. by apply IH.
Qed.

(** X1: an input that is not a [NetInput] makes [toNetInput] return
    exactly when it is valid: a single 4D tensor, or a non-empty input
    whose elements all resolve to a media element, a 3D tensor or a 4D
    tensor of batch size 1 and whose media elements all load. *)
Theorem toNetInput_returns_iff_valid (inputs : TNetInput) (m : bool) (w : World) :
  instanceof_NetInput inputs = None →
  (∃ w' r, toNetInput inputs m w = (w', inr r))
  ↔ validInput resolveInput awaitMediaLoaded inputs = true.
Proof.
  intros Hni. destruct (input_Tensor4D inputs) as [t|] eqn:H4.
  - split.
    + intros _. unfold validInput. by rewrite Hni, H4.
    + intros _. unfold InputCoercion.toNetInput.
      rewrite Hni, H4, create_afterCreate. by eexists _, _.
  - rewrite (validInput_items _ Hni H4), (toNetInput_run _ _ _ Hni H4). split.
    + intros (w' & r & Hrun). case_bool_decide as Hnil; [done|].
      destruct (list_find (λ a, badBatch a = true) _) as [[k a]|]; [done|].
      destruct (list_find (λ a, accepted a = false) _) as [[k a]|]; [done|].
      destruct (earliest _) as [r'|] eqn:Hload; [done|].
      by apply earliest_None in Hload.
    + intros (Hne & -> & -> & ->).
      rewrite bool_decide_eq_false_2 by done. by eexists _, _.
Qed.

(** X2: a call creates at most one [NetInput] and never touches the
    instances that exist.  When it fails the store of instances is as
    before; when it returns, the reference is either the instance passed
    in, with nothing changed at all, or a new instance appended to the
    store, managed as asked. *)
Theorem toNetInput_store_discipline (inputs : TNetInput) (m : bool) (w : World) :
  match toNetInput inputs m w with
  | (w', inl _) => heap w' = heap w
  | (w', inr r) =>
      (inputs = InNetInput r ∧ w' = w)
      ∨ (instanceof_NetInput inputs = None
         ∧ r = length (heap w)
         ∧ ∃ n, heap w' = heap w ++ [n] ∧ managed n = m)
  end.
Proof.
  destruct (instanceof_NetInput inputs) as [r|] eqn:Hni.
  { destruct inputs as [r'| |]; try done. injection Hni as ->. by left. }
  destruct (input_Tensor4D inputs) as [t|] eqn:H4.
  { unfold InputCoercion.toNetInput. rewrite Hni, H4, create_afterCreate.
    right. split_and!; [done..|]. by eexists. }
  rewrite (toNetInput_run _ _ _ Hni H4).
  case_bool_decide; [done|].
  destruct (list_find (λ a, badBatch a = true) _) as [[k a]|]; [done|].
  destruct (list_find (λ a, accepted a = false) _) as [[k a]|]; [done|].
  destruct (earliest _); [done|].
  right. split_and!; [done..|]. by eexists.
Qed.

(** X3: every failure of [toNetInput] is one of five: the empty-input
    error, the batch-size error of an element that resolves to a 4D
    tensor of batch size other than 1, the type error of an element,
    each raised with the store untouched and before any wait, or the
    rejection of a media element's load, raised after the waits for all
    media elements were started. *)
Theorem toNetInput_failures (inputs : TNetInput) (m : bool) (w w' : World) (e : Error) :
  toNetInput inputs m w = (w', inl e) →
  (e = emptyInputError ∧ inputArgArray inputs = [] ∧ w' = w)
  ∨ (∃ k a, (resolveInput <$> inputArgArray inputs) !! k = Some a
            ∧ badBatch a = true
            ∧ e = invalidBatchSizeError (idxHint (Array_isArray inputs) k) (batchSizeOf a)
            ∧ w' = w)
  ∨ (∃ k a, perItem inputs !! k = Some a
            ∧ accepted a = false
            ∧ e = typeError inputs k
            ∧ w' = w)
  ∨ (∃ md t, md ∈ mediaOf (perItem inputs)
             ∧ awaitMediaLoaded md = Some (t, e)
             ∧ heap w' = heap w
             ∧ awaited w' = awaited w ++ mediaOf (perItem inputs)).
Proof.
  destruct (instanceof_NetInput inputs) as [r|] eqn:Hni.
  { by destruct inputs. }
  destruct (input_Tensor4D inputs) as [t|] eqn:H4.
  { unfold InputCoercion.toNetInput. by rewrite Hni, H4, create_afterCreate. }
  rewrite (toNetInput_run _ _ _ Hni H4).
  case_bool_decide as Hnil.
  { intros [= <- <-]. by left. }
  destruct (list_find (λ a, badBatch a = true) _) as [[k a]|] eqn:Hbatch.
  { intros [= <- <-]. apply list_find_Some in Hbatch as (Hk & Hbad & _).
    right. left. by exists k, a. }
  destruct (list_find (λ a, accepted a = false) _) as [[k a]|] eqn:Htype.
  { intros [= <- <-]. apply list_find_Some in Htype as (Hk & Hbad & _).
    right. right. left. by exists k, a. }
  destruct (earliest _) as [[t e']|] eqn:Hload; [|done].
  intros [= <- <-]. right. right. right.
  apply earliest_elem_of, list_elem_of_omap in Hload as (md & Hmd & He).
  by exists md, t.
Qed.

(** X4: [manageCreatedInput] decides the managed flag of the instance
    created and nothing else: with the flag set or cleared the call
    returns the same reference or throws the same error, awaits the
    same media elements, and leaves stores that are equal or differ in
    the managed flag of the one new instance. *)
Theorem toNetInput_manage_flag_only (inputs : TNetInput) (w : World) :
  (toNetInput inputs true w).2 = (toNetInput inputs false w).2
  ∧ awaited (toNetInput inputs true w).1 = awaited (toNetInput inputs false w).1
  ∧ (heap (toNetInput inputs true w).1 = heap (toNetInput inputs false w).1
     ∨ ∃ src flag,
         heap (toNetInput inputs true w).1 = heap w ++ [mkNetInput src flag true]
         ∧ heap (toNetInput inputs false w).1 = heap w ++ [mkNetInput src flag false]).
Proof.
  destruct (instanceof_NetInput inputs) as [r|] eqn:Hni.
  { destruct inputs; try done. split_and!; [done..|]. by left. }
  destruct (input_Tensor4D inputs) as [t|] eqn:H4.
  { unfold InputCoercion.toNetInput. rewrite Hni, H4, !create_afterCreate.
    split_and!; [done..|]. right. by eexists _, _. }
  rewrite !(toNetInput_run _ _ _ Hni H4).
  case_bool_decide; [split_and!; [done..|by left]|].
  destruct (list_find (λ a, badBatch a = true) _) as [[k a]|];
    [split_and!; [done..|by left]|].
  destruct (list_find (λ a, accepted a = false) _) as [[k a]|];
    [split_and!; [done..|by left]|].
  destruct (earliest _); [split_and!; [done..|by left]|].
  split_and!; [done..|]. right. by eexists _, _.
Qed.

(** X5: when an input passes both checks and the load of some of its
    media elements rejects, the call is rejected with the rejection that
    arrives first, after the waits for all its media elements were
    started, and no [NetInput] is created. *)
Theorem toNetInput_load_rejected
    (inputs : TNetInput) (m : bool) (w : World) (t : nat) (e : Error) :
  instanceof_NetInput inputs = None →
  input_Tensor4D inputs = None →
  (∀ a, a ∈ inputArgArray inputs → badBatch (resolveInput a) = false) →
  (∀ a, a ∈ perItem inputs → accepted a = true) →
  earliest (omap awaitMediaLoaded (mediaOf (perItem inputs))) = Some (t, e) →
  toNetInput inputs m w
  = (mkWorld (heap w) (awaited w ++ mediaOf (perItem inputs)), inl e)
  ∧ (∃ md, md ∈ mediaOf (perItem inputs) ∧ awaitMediaLoaded md = Some (t, e))
  ∧ ∀ md t' e', md ∈ mediaOf (perItem inputs) →
      awaitMediaLoaded md = Some (t', e') → (t ≤ t')%nat.
Proof.
  intros Hni H4 Hbatch Htype Hload. split_and!.
  - rewrite (toNetInput_run _ _ _ Hni H4).
    rewrite bool_decide_eq_false_2.
    2: { intros Hnil. unfold InputCoercion.perItem in Hload.
         rewrite Hnil in Hload. done. }
    assert (list_find (λ a, badBatch a = true) (resolveInput <$> inputArgArray inputs)
            = None) as ->.
    { apply list_find_None, Forall_forall.
      intros x (a & -> & Ha)%list_elem_of_fmap. by rewrite (Hbatch a Ha). }
    assert (list_find (λ a, accepted a = false) (perItem inputs) = None) as ->.
    { apply list_find_None, Forall_forall. intros x Hx. by rewrite (Htype x Hx). }
    by rewrite Hload.
  - apply earliest_elem_of, list_elem_of_omap in Hload as (md & Hmd & He).
    by exists md.
  - intros md t' e' Hmd He'.
    apply (earliest_least _ _ (t', e') Hload).
    apply list_elem_of_omap. by exists md.
Qed.


(** X7: the batch-size rule holds for arrays only.  A 4D tensor of
    batch size other than 1 that [resolveInput] leaves as it is is
    wrapped when passed alone, and makes the call fail with the
    batch-size error of index 0 when passed as the only element of an
    array. *)
Theorem toNetInput_batch_rule_arrays_only (t : Tensor) (m : bool) (w : World) :
  length (shape t) = 4 →
  shape t !! 0 ≠ Some 1 →
  resolveInput (ATensor t) = ATensor t →
  toNetInput (InArg (ATensor t)) m w
  = (mkWorld (heap w ++ [mkNetInput (OfTensor4D t) false m]) (awaited w),
     inr (length (heap w)))
  ∧ toNetInput (InArray [ATensor t]) m w
    = (w, inl (invalidBatchSizeError " at input index 0:" (default 0 (shape t !! 0)))).
Proof.
  intros H4 Hb Hres. split.
  - unfold InputCoercion.toNetInput. cbn.
    rewrite bool_decide_eq_true_2 by done. by rewrite create_afterCreate.
  - rewrite (toNetInput_run (InArray [ATensor t]) _ _ eq_refl eq_refl).
    rewrite bool_decide_eq_false_2 by done.
    change (inputArgArray (InArray [ATensor t])) with [ATensor t].
    cbn [fmap list_fmap]. rewrite Hres.
    assert (badBatch (ATensor t) = true) as Hbad.
    { unfold badBatch, isTensor4D, isTensor, batchSizeOf.
      rewrite bool_decide_eq_true_2 by done. cbn.
      apply negb_true_iff, Nat.eqb_neq.
      destruct (shape t !! 0) as [b|] eqn:Hb0; [cbn; congruence|].
      apply lookup_ge_None in Hb0. lia. }
    cbn. rewrite decide_True by done. done.
Qed.

Lemma omap_nil_Forall (ms : list Media) :
  omap awaitMediaLoaded ms = [] → Forall (λ md, awaitMediaLoaded md = None) ms.
Proof.
  induction ms as [|md ms IH]; [by constructor|]. cbn.
  destruct (awaitMediaLoaded md) eqn:Hmd; [done|]. intros H. constructor; auto.
Qed.

(** X17: a call that creates a [NetInput] has awaited exactly the
    media elements among the resolved arguments, once each and in input
    order, and every one of them had loaded; tensors are not awaited,
    and a single 4D tensor awaits nothing. *)
Theorem toNetInput_awaits_media (inputs : TNetInput) (m : bool) (w w' : World) (r : Ref) :
  instanceof_NetInput inputs = None →
  toNetInput inputs m w = (w', inr r) →
  let waited :=
    match input_Tensor4D inputs with
    | Some _ => []
    | None => mediaOf (resolveInput <$> inputArgArray inputs)
    end in
  awaited w' = awaited w ++ waited
  ∧ Forall (λ md, awaitMediaLoaded md = None) waited.
Proof.
  intros Hni. cbn zeta. destruct (input_Tensor4D inputs) as [t|] eqn:H4.
  - unfold InputCoercion.toNetInput. rewrite Hni, H4, create_afterCreate.
    intros [= <- _]. cbn. by rewrite app_nil_r.
  - rewrite (toNetInput_run _ _ _ Hni H4).
    case_bool_decide; [done|].
    destruct (list_find (λ a, badBatch a = true) _) as [[k a]|]; [done|].
    destruct (list_find (λ a, accepted a = false) _) as [[k a]|]; [done|].
    destruct (earliest _) eqn:Hload; [done|]. apply earliest_None in Hload.
    intros [= <- _]. cbn [awaited].
    assert (mediaOf (perItem inputs) = mediaOf (resolveInput <$> inputArgArray inputs))
      as Hmedia.
    { rewrite <- (mediaOf_dropBatchAxis (resolveInput <$> inputArgArray inputs)).
      unfold InputCoercion.perItem. by rewrite <- list_fmap_compose. }
    rewrite Hmedia in *. split; [done|]. by apply omap_nil_Forall.
Qed.

End Outcomes.

(** Witness of X1: a valid array, which returns. *)
Lemma toNetInput_returns_iff_valid_witness :
  instanceof_NetInput (InArray [sampleImage; sampleTensor4D 1]) = None
  ∧ ((∃ w' r, toNetInput (resolveInput_dom sampleDocument) loaded
                (InArray [sampleImage; sampleTensor4D 1]) false world0 = (w', inr r))
     ↔ validInput (resolveInput_dom sampleDocument) loaded
         (InArray [sampleImage; sampleTensor4D 1]) = true).
Proof.
  split; [reflexivity|].
  apply (toNetInput_returns_iff_valid (resolveInput_dom sampleDocument) loaded
           (InArray [sampleImage; sampleTensor4D 1]) false world0).
  reflexivity.
Defined.

(** Witness of X3: an unknown element id passed alone. *)
Lemma toNetInput_failures_witness :
  toNetInput (resolveInput_dom sampleDocument) loaded (InArg (AString "nope")) true world0
  = (world0, inl "toNetInput - string passed, but could not resolve HTMLElement for element id nope")
  ∧ ∃ k a,
      InputCoercion.perItem (resolveInput_dom sampleDocument) (InArg (AString "nope")) !! k
      = Some a
      ∧ accepted a = false.
Proof.
  split; [reflexivity|].
  destruct (toNetInput_failures (resolveInput_dom sampleDocument) loaded
              (InArg (AString "nope")) true world0 world0
              "toNetInput - string passed, but could not resolve HTMLElement for element id nope"
              eq_refl)
    as [(_ & Hnil & _)|[(k & a & Hk & Hbad & _)|[(k & a & Hk & Hbad & _)|(md & t & Hmd & _)]]].
  - discriminate Hnil.
  - destruct k as [|[|k]]; cbn in Hk; try discriminate Hk.
    injection Hk as <-. discriminate Hbad.
  - exists k, a. split; assumption.
  - cbn in Hmd. by apply elem_of_nil in Hmd.
Defined.

(** Witness of X5: an image whose load rejects late and a video whose
    load rejects early. *)
Lemma toNetInput_load_rejected_witness :
  earliest (omap rejected
              (mediaOf (InputCoercion.perItem (resolveInput_dom sampleDocument)
                          (InArray [sampleImage; sampleTensor3D; sampleVideo]))))
  = Some (2, "video failed")
  ∧ toNetInput (resolveInput_dom sampleDocument) rejected
      (InArray [sampleImage; sampleTensor3D; sampleVideo]) true world0
    = (mkWorld [] [HTMLImageElement 1; HTMLVideoElement 2], inl "video failed").
Proof.
  split; [reflexivity|].
  apply (toNetInput_load_rejected (resolveInput_dom sampleDocument) rejected
           (InArray [sampleImage; sampleTensor3D; sampleVideo]) true world0
           2 "video failed");
    try reflexivity.
  - intros a Ha. cbn in Ha.
    apply elem_of_cons in Ha as [->|Ha]; [reflexivity|].
    apply elem_of_cons in Ha as [->|Ha]; [reflexivity|].
    apply elem_of_cons in Ha as [->|Ha]; [reflexivity|].
    by apply elem_of_nil in Ha.
  - intros a Ha. cbn in Ha.
    apply elem_of_cons in Ha as [->|Ha]; [reflexivity|].
    apply elem_of_cons in Ha as [->|Ha]; [reflexivity|].
    apply elem_of_cons in Ha as [->|Ha]; [reflexivity|].
    by apply elem_of_nil in Ha.
Defined.


(** Witness of X7: a batch of five images, alone and in an array. *)
Lemma toNetInput_batch_rule_arrays_only_witness :
  length (shape (mkTensor 8 [5; 10; 10; 3])) = 4
  ∧ shape (mkTensor 8 [5; 10; 10; 3]) !! 0 ≠ Some 1
  ∧ toNetInput (resolveInput_dom sampleDocument) loaded
      (InArg (sampleTensor4D 5)) false world0
    = (mkWorld [mkNetInput (OfTensor4D (mkTensor 8 [5; 10; 10; 3])) false false] [], inr 0)
  ∧ toNetInput (resolveInput_dom sampleDocument) loaded
      (InArray [sampleTensor4D 5]) false world0
    = (world0, inl "toNetInput - at input index 0: tf.Tensor4D with batchSize 5 passed, but not supported in input array").
Proof.
  split; [reflexivity|]. split; [discriminate|].
  apply (toNetInput_batch_rule_arrays_only (resolveInput_dom sampleDocument) loaded
           (mkTensor 8 [5; 10; 10; 3]) false world0);
    [reflexivity|discriminate|reflexivity].
Defined.

(** Witness of X17: an image, a tensor and an element id that resolves
    to the image. *)
Lemma toNetInput_awaits_media_witness :
  toNetInput (resolveInput_dom sampleDocument) loaded
    (InArray [sampleImage; sampleTensor3D; AString "face"]) false world0
  = (mkWorld [mkNetInput (OfArray [sampleImage; sampleTensor3D; sampleImage]) true false]
       [HTMLImageElement 1; HTMLImageElement 1], inr 0)
  ∧ [HTMLImageElement 1; HTMLImageElement 1]
    = [] ++ mediaOf (resolveInput_dom sampleDocument
                       <$> [sampleImage; sampleTensor3D; AString "face"]).
Proof.
  split; [reflexivity|].
  exact (proj1 (toNetInput_awaits_media (resolveInput_dom sampleDocument) loaded
                  (InArray [sampleImage; sampleTensor3D; AString "face"]) false world0
                  _ 0 eq_refl eq_refl)).
Defined.

End InputCoercionExtra.

(** * More on [allFacesFactory]: failures and the life of the crops *)

Module PipelineExtra.
Import Pipeline ArrayFacts PipelineProofs.

(** ** Replaying events *)

Lemma replay_app evs evs' l :
  replay (evs ++ evs') l = replay evs l ≫= replay evs'.
Proof.
  revert l. induction evs as [|ev evs IH]; intros l; [done|].
  destruct ev; cbn; repeat case_decide; try done; apply IH.
Qed.

Lemma replay_alloc hs (l : gset nat) :
  NoDup hs → (∀ h, h ∈ hs → h ∉ l) →
  replay (EvAlloc <$> hs) l = Some (list_to_set hs ∪ l).
Proof.
  intros Hnd. revert l. induction Hnd as [|h hs Hh Hnd IH]; intros l Hfresh; cbn.
  - f_equal. set_solver.
  - rewrite decide_False by (apply Hfresh; left).
    rewrite IH.
    + f_equal. set_solver.
    + intros h' Hh'. specialize (Hfresh h' ltac:(by right)). set_solver.
Qed.

Lemma replay_dispose hs (l : gset nat) :
  NoDup hs → (∀ h, h ∈ hs → h ∈ l) →
  replay (EvDispose <$> hs) l = Some (l ∖ list_to_set hs).
Proof.
  intros Hnd. revert l. induction Hnd as [|h hs Hh Hnd IH]; intros l Hlive; cbn.
  - f_equal. set_solver.
  - rewrite decide_True by (apply Hlive; left).
    rewrite IH.
    + f_equal. set_solver.
    + intros h' Hh'. specialize (Hlive h' ltac:(by right)). set_solver.
Qed.

Lemma replay_compute hs (l : gset nat) :
  (∀ h, h ∈ hs → h ∈ l) →
  replay (EvComputeFaceDescriptor <$> hs) l = Some l.
Proof.
  induction hs as [|h hs IH]; intros Hlive; cbn; [done|].
  rewrite decide_True by (apply Hlive; left).
  apply IH. intros h' Hh'. apply Hlive. by right.
Qed.

(** ** The steps of the engine keep it consistent *)

Lemma consistent_refl s : wellFormed s → consistent s s.
Proof.
  intros Hwf. split; [done|]. split; [done|].
  exists []. by rewrite app_nil_r.
Qed.

Lemma consistent_locate s0 s :
  consistent s0 s → consistent s0 (recorded [EvLocateFaces] s).
Proof.
  intros (Hwf & Hid & evs & Htr & Hrep). split; [done|]. split; [done|].
  exists (evs ++ [EvLocateFaces]). cbn. rewrite Htr, app_assoc. split; [done|].
  rewrite replay_app, Hrep. done.
Qed.

Lemma consistent_allocated s0 s n :
  consistent s0 s → consistent s0 (allocated n s).
Proof.
  intros (Hwf & Hid & evs & Htr & Hrep). split_and!.
  - intros h. cbn. rewrite elem_of_union, elem_of_list_to_set, elem_of_seq.
    intros [?|Hh]; [lia|]. specialize (Hwf h Hh). cbn in Hwf. lia.
  - cbn. lia.
  - exists (evs ++ (EvAlloc <$> seq (nextId s) n)). cbn.
    rewrite Htr, app_assoc. split; [done|].
    rewrite replay_app, Hrep. cbn. apply replay_alloc; [apply NoDup_seq|].
    intros h [Hh _]%elem_of_seq Hlive. specialize (Hwf h Hlive). cbn in Hwf. lia.
Qed.

Lemma consistent_landmarks s0 s hs :
  consistent s0 s → (∀ h, h ∈ hs → h ∈ live s) →
  consistent s0 (recorded [EvDetectLandmarks hs] s).
Proof.
  intros (Hwf & Hid & evs & Htr & Hrep) Hlive. split; [done|]. split; [done|].
  exists (evs ++ [EvDetectLandmarks hs]). cbn. rewrite Htr, app_assoc. split; [done|].
  rewrite replay_app, Hrep. cbn.
  rewrite decide_True; [done|]. by apply Forall_forall.
Qed.

Lemma consistent_compute s0 s hs :
  consistent s0 s → (∀ h, h ∈ hs → h ∈ live s) →
  consistent s0 (recorded (EvComputeFaceDescriptor <$> hs) s).
Proof.
  intros (Hwf & Hid & evs & Htr & Hrep) Hlive. split; [done|]. split; [done|].
  exists (evs ++ (EvComputeFaceDescriptor <$> hs)). cbn.
  rewrite Htr, app_assoc. split; [done|].
  rewrite replay_app, Hrep. cbn. by apply replay_compute.
Qed.

Lemma consistent_disposed s0 s hs :
  consistent s0 s → NoDup hs → (∀ h, h ∈ hs → h ∈ live s) →
  consistent s0 (disposed hs s).
Proof.
  intros (Hwf & Hid & evs & Htr & Hrep) Hnd Hlive. split_and!.
  - intros h. cbn. rewrite elem_of_difference. intros [Hh _]. by apply Hwf.
  - done.
  - exists (evs ++ (EvDispose <$> hs)). cbn. rewrite Htr, app_assoc. split; [done|].
    rewrite replay_app, Hrep. cbn. by apply replay_dispose.
Qed.

(** One step of a consistency proof, or one of its side conditions. *)
Ltac consistent_step :=
  first
    [ assumption
    | apply NoDup_seq
    | apply consistent_disposed
    | apply consistent_compute
    | apply consistent_landmarks
    | apply consistent_allocated
    | apply consistent_locate
    | apply consistent_refl
    | (intros ? ?; cbn [live nextId disposed recorded allocated] in *; set_solver) ].

(** The events of a run, counted. *)
Ltac count_events :=
  unfold eventsSince;
  cbn [trace disposed recorded allocated nextId live];
  rewrite <- ?app_assoc, drop_app_length;
  rewrite ?allocations_app, ?releases_app, ?allocations_alloc, ?allocations_dispose,
    ?allocations_compute, ?releases_alloc, ?releases_dispose, ?releases_compute;
  cbn; rewrite ?app_nil_r.

Section Run.
Variable align : FaceLandmarks → Rect → Rect.
Variable shiftByPoint : FaceLandmarks → Rect → FaceLandmarks.
Variable cropError : TNetInput → list Rect → option (nat * Error).
Variable detectionNet : FaceDetectionNet.
Variable landmarkNet : FaceLandmarkNet.
Variable recognitionNet : FaceRecognitionNet.
Variable input : TNetInput.
Variable minConfidence : Q.

Local Abbreviation allFaces :=
  (allFacesFactory align shiftByPoint cropError detectionNet landmarkNet recognitionNet
     input minConfidence).

(** Whatever way a run ends, the engine it leaves is consistent with
    the one it started from. *)
Lemma allFaces_consistent (s s' : Engine) res :
  wellFormed s → allFaces s = (s', res) → consistent s s'.
Proof.
  intros Hwf. rewrite allFaces_run. cbn zeta.
  destruct (locateFaces detectionNet input minConfidence None) as [e|detections].
  { intros [= <- _]. repeat consistent_step. }
  destruct (cropError input (getBox <$> detections)) as [[leftover e]|].
  { intros [= <- _]. repeat consistent_step. }
  destruct (detectLandmarks landmarkNet _) as [e|lms].
  { intros [= <- _]. repeat consistent_step. }
  case_decide as Hle.
  2: { intros [= <- _]. repeat consistent_step. }
  destruct (cropError input _) as [[leftover e]|].
  { intros [= <- _]. repeat consistent_step. }
  destruct (Promise_all _) as [e|descriptors].
  { intros [= <- _]. repeat consistent_step. }
  intros [= <- _]. repeat consistent_step.
Qed.

(** X8: when the detector rejects, the call is rejected with that very
    error and the detector call is its only event: no tensor was
    allocated and no other network was called.  When the cropping of the
    detections rejects, the call is rejected with that error; no network
    is called and nothing is disposed, so the tensors the failed
    cropping left behind stay allocated. *)
Theorem allFaces_early_failure (s : Engine) (e : Error) :
  (locateFaces detectionNet input minConfidence None = inl e →
   ∃ s',
     allFaces s = (s', inl e)
     ∧ eventsSince s s' = [EvLocateFaces]
     ∧ live s' = live s)
  ∧ (∀ detections leftover,
       locateFaces detectionNet input minConfidence None = inr detections →
       cropError input (getBox <$> detections) = Some (leftover, e) →
       ∃ s',
         allFaces s = (s', inl e)
         ∧ eventsSince s s' = [EvLocateFaces] ++ (EvAlloc <$> seq (nextId s) leftover)
         ∧ ∀ h, h ∈ seq (nextId s) leftover → h ∈ live s').
Proof.
  split.
  - intros Hdet. rewrite allFaces_run. cbn zeta. rewrite Hdet.
    eexists. split; [done|]. split; [|done].
    unfold eventsSince. cbn. apply drop_app_length.
  - intros detections leftover Hdet Hcrop. rewrite allFaces_run. cbn zeta.
    rewrite Hdet, Hcrop. eexists. split; [done|]. split.
    + unfold eventsSince. cbn [trace recorded allocated nextId].
      rewrite <- app_assoc. apply drop_app_length.
    + intros h Hh. cbn [live recorded allocated nextId]. set_solver.
Qed.

(** X9: when the cropping of the aligned boxes rejects, the call is
    rejected with that error.  The raw crops were disposed before, and
    they are all that is disposed: the recognizer is not called and the
    tensors the failed cropping left behind stay allocated. *)
Theorem allFaces_aligned_crop_failure
    (s : Engine) (detections : list FaceDetection)
    (faceLandmarksByFace : list FaceLandmarks) (leftover : nat) (e : Error) :
  locateFaces detectionNet input minConfidence None = inr detections →
  cropError input (getBox <$> detections) = None →
  detectLandmarks landmarkNet (cropsFrom (nextId s) input (getBox <$> detections))
  = inr faceLandmarksByFace →
  (length faceLandmarksByFace ≤ length detections)%nat →
  cropError input (zip_with align faceLandmarksByFace (getBox <$> detections))
  = Some (leftover, e) →
  ∃ s',
    allFaces s = (s', inl e)
    ∧ eventsSince s s'
      = [EvLocateFaces] ++ (EvAlloc <$> seq (nextId s) (length detections))
        ++ [EvDetectLandmarks (seq (nextId s) (length detections))]
        ++ (EvDispose <$> seq (nextId s) (length detections))
        ++ (EvAlloc <$> seq (nextId s + length detections) leftover)
    ∧ releases (eventsSince s s') = seq (nextId s) (length detections)
    ∧ ∀ h, h ∈ seq (nextId s + length detections) leftover → h ∈ live s'.
Proof.
  intros Hdet Hcrop Hlm Hlen Hcrop'. rewrite allFaces_run. cbn zeta.
  rewrite Hdet, Hcrop, Hlm, decide_True, Hcrop' by done.
  eexists. split; [done|]. split_and!.
  - unfold eventsSince. cbn [trace disposed recorded allocated nextId].
    rewrite <- !app_assoc. apply drop_app_length.
  - by count_events.
  - intros h Hh. cbn [live disposed recorded allocated nextId]. set_solver.
Qed.


(** X11: when the landmark network answers with more landmark sets
    than there are detections, the call fails with the [TypeError] of
    reading [getBox] off a missing detection.  The events of the call
    are the detector call, the allocation of the raw crops, the landmark
    call and the disposal of the raw crops, and no more: no aligned crop
    is cut and the recognizer is not called. *)
Theorem allFaces_too_many_landmarks
    (s : Engine) (detections : list FaceDetection)
    (faceLandmarksByFace : list FaceLandmarks) :
  locateFaces detectionNet input minConfidence None = inr detections →
  cropError input (getBox <$> detections) = None →
  detectLandmarks landmarkNet (cropsFrom (nextId s) input (getBox <$> detections))
  = inr faceLandmarksByFace →
  (length detections < length faceLandmarksByFace)%nat →
  ∃ s',
    allFaces s = (s', inl (TypeError "getBox"))
    ∧ eventsSince s s'
      = [EvLocateFaces] ++ (EvAlloc <$> seq (nextId s) (length detections))
        ++ [EvDetectLandmarks (seq (nextId s) (length detections))]
        ++ (EvDispose <$> seq (nextId s) (length detections))
    ∧ allocations (eventsSince s s') = seq (nextId s) (length detections)
    ∧ releases (eventsSince s s') = seq (nextId s) (length detections)
    ∧ live s' ⊆ live s.
Proof.
  intros Hdet Hcrop Hlm Hlen. rewrite allFaces_run. cbn zeta.
  rewrite Hdet, Hcrop, Hlm, decide_False by lia.
  eexists. split; [done|]. split_and!.
  - unfold eventsSince. cbn [trace disposed recorded allocated nextId].
    rewrite <- !app_assoc. apply drop_app_length.
  - by count_events.
  - by count_events.
  - cbn [live disposed recorded allocated nextId]. set_solver.
Qed.


(** X13: a call returns only when every stage succeeded and the
    landmark network answered with exactly one landmark set per
    detection; every description returned then holds the detection, the
    shifted landmarks and a descriptor of its own index, never an
    undefined slot. *)
Theorem allFaces_returns_only_if (s s' : Engine) (res : list FullFaceDescription) :
  allFaces s = (s', inr res) →
  ∃ detections faceLandmarksByFace descriptors,
    locateFaces detectionNet input minConfidence None = inr detections
    ∧ cropError input (getBox <$> detections) = None
    ∧ detectLandmarks landmarkNet (cropsFrom (nextId s) input (getBox <$> detections))
      = inr faceLandmarksByFace
    ∧ cropError input (zip_with align faceLandmarksByFace (getBox <$> detections)) = None
    ∧ Promise_all
        (computeFaceDescriptor recognitionNet
           <$> cropsFrom (nextId s + length detections) input
                 (zip_with align faceLandmarksByFace (getBox <$> detections)))
      = inr descriptors
    ∧ length faceLandmarksByFace = length detections
    ∧ length descriptors = length detections
    ∧ length res = length detections
    ∧ ∀ i r, res !! i = Some r →
        ∃ d l desc,
          detections !! i = Some d
          ∧ faceLandmarksByFace !! i = Some l
          ∧ descriptors !! i = Some desc
          ∧ r = mkFullFaceDescription d (shiftByPoint l (getBox d)) (Some desc).
Proof.
  rewrite allFaces_run. cbn zeta.
  destruct (locateFaces detectionNet input minConfidence None) as [e|detections]; [done|].
  destruct (cropError input (getBox <$> detections)) as [[leftover e]|] eqn:Hcrop;
    [done|].
  destruct (detectLandmarks landmarkNet _) as [e|lms] eqn:Hlm; [done|].
  case_decide as Hle; [|done].
  destruct (cropError input (zip_with align lms (getBox <$> detections)))
    as [[leftover e]|] eqn:Hcrop'; [done|].
  destruct (Promise_all _) as [e|descriptors] eqn:Hdesc; [done|].
  intros [= _ (Hlen & Hge & Hall)%assemble_inv].
  assert (length lms = length detections) as Hlms by lia.
  assert (length descriptors = length detections) as Hdescs.
  { apply Promise_all_inv in Hdesc. apply (f_equal length) in Hdesc.
    rewrite !length_fmap, cropsFrom_length, length_zip_with, length_fmap in Hdesc. lia. }
  exists detections, lms, descriptors. split_and!; try done.
  intros i r Hr.
  destruct (lookup_lt_is_Some_2 detections i) as [d Hd].
  { apply lookup_lt_Some in Hr. lia. }
  destruct (Hall i d Hd) as (l & Hl & Hi).
  destruct (lookup_lt_is_Some_2 descriptors i) as [desc Hdi].
  { apply lookup_lt_Some in Hd. lia. }
  exists d, l, desc. split_and!; try done.
  rewrite Hi, Hdi in Hr. by injection Hr as <-.
Qed.

(** X15: a call that returns on a well-formed engine leaves exactly
    the tensors allocated that were allocated before it. *)
Theorem allFaces_restores_live (s s' : Engine) (res : list FullFaceDescription) :
  wellFormed s →
  allFaces s = (s', inr res) →
  live s' = live s.
Proof.
  intros Hwf [_ ->]%allFaces_returns_inv. cbn zeta.
  cbn [live disposed recorded allocated nextId].
  apply set_eq. intros h. specialize (Hwf h).
  rewrite !elem_of_difference, !elem_of_union, !elem_of_difference, !elem_of_union,
    !elem_of_list_to_set, !elem_of_seq.
  split; [naive_solver|]. intros Hh. specialize (Hwf Hh). cbn in Hwf.
  split; [|lia]. right. split; [by right|lia].
Qed.

(** X16: in every run on a well-formed engine, however it ends, the
    events are in line: a handle is allocated only when it is free,
    handed to the landmark network or the recognizer only while it is
    allocated, and disposed only while it is allocated, hence at most
    once; replaying the events on the tensors allocated before the call
    gives the tensors allocated after it. *)
Theorem allFaces_uses_live_tensors (s s' : Engine) res :
  wellFormed s →
  allFaces s = (s', res) →
  replay (eventsSince s s') (live s) = Some (live s').
Proof.
  intros Hwf Hrun.
  destruct (allFaces_consistent s s' res Hwf Hrun) as (_ & _ & evs & Htr & Hrep).
  unfold eventsSince. by rewrite Htr, drop_app_length.
Qed.

End Run.

(** Witness of X8: the detector rejects; the cropping of the
    detections rejects and leaves three tensors. *)
Lemma allFaces_early_failure_witness :
  (∃ s',
     allFacesFactory sampleAlign sampleShift noCropError
       failingDetectionNet sampleLandmarkNet sampleRecognitionNet
       sampleInput (1 # 2) engine0 = (s', inl "detector failed")
     ∧ eventsSince engine0 s' = [EvLocateFaces]
     ∧ live s' = live engine0)
  ∧ ∃ s',
      allFacesFactory sampleAlign sampleShift rawCropError
        sampleDetectionNet sampleLandmarkNet sampleRecognitionNet
        sampleInput (1 # 2) engine0 = (s', inl "crop failed")
      ∧ eventsSince engine0 s' = [EvLocateFaces; EvAlloc 0; EvAlloc 1; EvAlloc 2]
      ∧ ∀ h, h ∈ [0; 1; 2] → h ∈ live s'.
Proof.
  split.
  - exact (proj1 (allFaces_early_failure sampleAlign sampleShift noCropError
                    failingDetectionNet sampleLandmarkNet sampleRecognitionNet
                    sampleInput (1 # 2) engine0 "detector failed") eq_refl).
  - exact (proj2 (allFaces_early_failure sampleAlign sampleShift rawCropError
                    sampleDetectionNet sampleLandmarkNet sampleRecognitionNet
                    sampleInput (1 # 2) engine0 "crop failed")
             sampleDetections 3 eq_refl eq_refl).
Defined.

(** Witness of X9: the cropping rejects the aligned boxes and leaves
    three tensors. *)
Lemma allFaces_aligned_crop_failure_witness :
  alignedCropError sampleInput (getBox <$> sampleDetections) = None
  ∧ alignedCropError sampleInput
      (zip_with sampleAlign sampleLandmarks (getBox <$> sampleDetections))
    = Some (3, "crop failed")
  ∧ ∃ s',
      allFacesFactory sampleAlign sampleShift alignedCropError
        sampleDetectionNet sampleLandmarkNet sampleRecognitionNet
        sampleInput (1 # 2) engine0 = (s', inl "crop failed")
      ∧ eventsSince engine0 s'
        = [EvLocateFaces; EvAlloc 0; EvAlloc 1; EvDetectLandmarks [0; 1];
           EvDispose 0; EvDispose 1; EvAlloc 2; EvAlloc 3; EvAlloc 4]
      ∧ releases (eventsSince engine0 s') = [0; 1]
      ∧ ∀ h, h ∈ [2; 3; 4] → h ∈ live s'.
Proof.
  split_and!; [reflexivity..|].
  apply (allFaces_aligned_crop_failure sampleAlign sampleShift alignedCropError
           sampleDetectionNet sampleLandmarkNet sampleRecognitionNet
           sampleInput (1 # 2) engine0 sampleDetections sampleLandmarks 3 "crop failed");
    try reflexivity; cbn; lia.
Defined.


(** Witness of X11: three landmark sets for two detections. *)
Lemma allFaces_too_many_landmarks_witness :
  detectLandmarks eagerLandmarkNet (cropsFrom 0 sampleInput (getBox <$> sampleDetections))
  = inr ([(0, 0)%Z] :: sampleLandmarks)
  ∧ ∃ s',
      allFacesFactory sampleAlign sampleShift noCropError
        sampleDetectionNet eagerLandmarkNet sampleRecognitionNet
        sampleInput (1 # 2) engine0
      = (s', inl "TypeError: Cannot read property 'getBox' of undefined")
      ∧ eventsSince engine0 s'
        = [EvLocateFaces; EvAlloc 0; EvAlloc 1; EvDetectLandmarks [0; 1];
           EvDispose 0; EvDispose 1]
      ∧ allocations (eventsSince engine0 s') = [0; 1]
      ∧ releases (eventsSince engine0 s') = [0; 1]
      ∧ live s' ⊆ live engine0.
Proof.
  split; [reflexivity|].
  apply (allFaces_too_many_landmarks sampleAlign sampleShift noCropError
           sampleDetectionNet eagerLandmarkNet sampleRecognitionNet
           sampleInput (1 # 2) engine0 sampleDetections ([(0, 0)%Z] :: sampleLandmarks));
    try reflexivity; cbn; lia.
Defined.


(** Witness of X13: the sample run returns. *)
Lemma allFaces_returns_only_if_witness :
  (allFacesFactory sampleAlign sampleShift noCropError
     sampleDetectionNet sampleLandmarkNet sampleRecognitionNet
     sampleInput (1 # 2) engine0).2 = inr sampleResult
  ∧ ∃ detections faceLandmarksByFace (descriptors : list Descriptor),
      locateFaces sampleDetectionNet sampleInput (1 # 2) None = inr detections
      ∧ detectLandmarks sampleLandmarkNet
          (cropsFrom 0 sampleInput (getBox <$> detections)) = inr faceLandmarksByFace
      ∧ length faceLandmarksByFace = length detections
      ∧ length descriptors = length detections
      ∧ length sampleResult = length detections.
Proof.
  split; [reflexivity|].
  destruct (allFaces_returns_only_if sampleAlign sampleShift noCropError
              sampleDetectionNet sampleLandmarkNet sampleRecognitionNet
              sampleInput (1 # 2) engine0
              (allFacesFactory sampleAlign sampleShift noCropError
                 sampleDetectionNet sampleLandmarkNet sampleRecognitionNet
                 sampleInput (1 # 2) engine0).1
              sampleResult)
    as (detections & lms & descriptors & Hdet & _ & Hlm & _ & _ & Hl & Hd & Hr & _).
  - vm_compute. reflexivity.
  - exists detections, lms, descriptors. split_and!; assumption.
Defined.

(** Witness of X15: the sample run returns and leaves no tensor
    allocated. *)
Lemma allFaces_restores_live_witness :
  wellFormed engine0
  ∧ (allFacesFactory sampleAlign sampleShift noCropError
       sampleDetectionNet sampleLandmarkNet sampleRecognitionNet
       sampleInput (1 # 2) engine0).2 = inr sampleResult
  ∧ live (allFacesFactory sampleAlign sampleShift noCropError
            sampleDetectionNet sampleLandmarkNet sampleRecognitionNet
            sampleInput (1 # 2) engine0).1 = live engine0.
Proof.
  split; [apply set_Forall_empty|]. split; [reflexivity|].
  apply (allFaces_restores_live sampleAlign sampleShift noCropError
           sampleDetectionNet sampleLandmarkNet sampleRecognitionNet
           sampleInput (1 # 2) engine0 _ sampleResult).
  - apply set_Forall_empty.
  - vm_compute. reflexivity.
Defined.

(** Witness of X16: the run in which the recognizer rejects. *)
Lemma allFaces_uses_live_tensors_witness :
  wellFormed engine0
  ∧ replay
      (eventsSince engine0
         (allFacesFactory sampleAlign sampleShift noCropError
            sampleDetectionNet sampleLandmarkNet failingRecognitionNet
            sampleInput (1 # 2) engine0).1)
      (live engine0)
    = Some (live (allFacesFactory sampleAlign sampleShift noCropError
                    sampleDetectionNet sampleLandmarkNet failingRecognitionNet
                    sampleInput (1 # 2) engine0).1).
Proof.
  split; [apply set_Forall_empty|].
  apply (allFaces_uses_live_tensors sampleAlign sampleShift noCropError
           sampleDetectionNet sampleLandmarkNet failingRecognitionNet
           sampleInput (1 # 2) engine0 _
           (allFacesFactory sampleAlign sampleShift noCropError
              sampleDetectionNet sampleLandmarkNet failingRecognitionNet
              sampleInput (1 # 2) engine0).2).
  - apply set_Forall_empty.
  - apply surjective_pairing.
Defined.

End PipelineExtra.
